(** * MCQenerator: the question-generation pipeline of [src/App.tsx]

    A shallow embedding of the pure core of the application
    ([shuffleArray], [extractEntities], [generateContextualQuestion],
    [generatePlausibleDistractors], [generateMockQuestions]) together with
    the JavaScript string, array and regular-expression primitives these
    functions call.

    Modelling conventions.
    - A JavaScript string is a [string]; one [ascii] stands for one UTF-16
      code unit, restricted to the range 0..255 (Latin-1).
    - [undefined] is [None]; a value of JavaScript type [string | undefined]
      is an [option string].
    - [Math.random()] reads the next element of an explicit random source.
    - An array is a [list]; for [shuffleArray], which writes into an array,
      there is also a model on a store of arrays addressed by references
      (section [Arrays]), so that what happens to the argument can be said.
    - [count] is a natural number. *)

From Stdlib Require Import NArith Ascii String DecimalString.
From Stdlib Require DecimalNat.
From stdpp Require Import base list strings.

Local Open Scope N_scope.

(** ** Characters *)

Definition code (c : ascii) : N := N_of_ascii c.

Definition in_range (lo hi : N) (c : ascii) : bool :=
  (lo <=? code c) && (code c <=? hi).

(** The characters matched by [\s] and stripped by [String.prototype.trim]:
    TAB, LF, VT, FF, CR, SPACE and NO-BREAK SPACE. *)
Definition isWhiteSpace (c : ascii) : bool :=
  match code c with
  | 9 | 10 | 11 | 12 | 13 | 32 | 160 => true
  | _ => false
  end.

(** [String.prototype.toLowerCase] on one code unit: A-Z and the Latin-1
    capitals U+00C0..U+00DE (U+00D7, the multiplication sign, excepted). *)
Definition toLowerCase_char (c : ascii) : ascii :=
  if in_range 65 90 c || (in_range 192 222 c && negb (code c =? 215))
  then ascii_of_N (code c + 32) else c.

(** [Canonicalize] of the regular-expression semantics under the [i] flag
    (upper-casing).  A code unit above 127 never canonicalizes to an ASCII
    one; the two Latin-1 letters whose capital lies outside Latin-1
    (U+00B5, U+00FF) are left in place, which is the same for every pattern
    of this file since all of them are ASCII. *)
Definition Canonicalize (c : ascii) : ascii :=
  if in_range 97 122 c || (in_range 224 254 c && negb (code c =? 247))
  then ascii_of_N (code c - 32) else c.

Local Close Scope N_scope.

Definition LF : ascii := ascii_of_nat 10.
Definition DQUOTE : ascii := ascii_of_nat 34.

(** ** Strings *)

Fixpoint toLowerCase (s : string) : string :=
  match s with
  | EmptyString => EmptyString
  | String c s' => String (toLowerCase_char c) (toLowerCase s')
  end.

Fixpoint trimStart (s : string) : string :=
  match s with
  | EmptyString => EmptyString
  | String c s' => if isWhiteSpace c then trimStart s' else s
  end.

Definition trimEnd (s : string) : string :=
  String.rev (trimStart (String.rev s)).

Definition trim (s : string) : string := trimEnd (trimStart s).

Fixpoint startsWith (s sub : string) : bool :=
  match sub, s with
  | EmptyString, _ => true
  | String p sub', String c s' => if Ascii.eqb p c then startsWith s' sub' else false
  | String _ _, EmptyString => false
  end.

(** [s.includes(sub)] *)
Fixpoint includes (s sub : string) : bool :=
  startsWith s sub ||
  match s with
  | EmptyString => false
  | String _ s' => includes s' sub
  end.

(** [s.substring(0, n)] *)
Fixpoint take_string (n : nat) (s : string) : string :=
  match n, s with
  | S n', String c s' => String c (take_string n' s')
  | _, _ => EmptyString
  end.

(** Truthiness of a string: the empty string is falsy. *)
Definition truthy (s : string) : bool :=
  match s with EmptyString => false | String _ _ => true end.

(** Template-literal and [includes] coercion of a [string | undefined]. *)
Definition ToString (v : option string) : string :=
  match v with Some s => s | None => "undefined" end.

(** Decimal rendering of a non-negative integer in a template literal. *)
Definition Number_toString (n : nat) : string :=
  NilZero.string_of_uint (Nat.to_uint n).

(** ** Regular expressions

    The fragment used by the source: alternations of literal words,
    greedy [+] over a character class, concatenation and one capturing
    group, with the [i] flag. *)

Inductive ClassItem :=
  | CChar (c : ascii)
  | CRange (lo hi : ascii)
  | CSpace.

Record CharClass := { negated : bool; items : list ClassItem }.

Inductive Regex :=
  | RWords (alts : list string)   (* (?:w1|w2|...) ; a single word is a literal *)
  | RPlus (cls : CharClass)       (* [...]+ , greedy *)
  | RSeq (r1 r2 : Regex)
  | RGroup (r : Regex).           (* capturing group 1 *)

Record RegExp := { source : Regex; ignoreCase : bool }.

Definition all_chars : list ascii := map ascii_of_nat (seq 0 256).

Definition item_member (it : ClassItem) (c : ascii) : bool :=
  match it with
  | CChar x => Ascii.eqb x c
  | CRange lo hi => in_range (code lo) (code hi) c
  | CSpace => isWhiteSpace c
  end.

Definition class_member (cls : CharClass) (c : ascii) : bool :=
  existsb (fun it => item_member it c) (items cls).

(** CharacterSetMatcher: under [i], some member of the set canonicalizes to
    the canonicalized input character. *)
Definition class_matches (i : bool) (cls : CharClass) (c : ascii) : bool :=
  let found :=
    if i
    then existsb (fun x => class_member cls x && Ascii.eqb (Canonicalize x) (Canonicalize c)) all_chars
    else class_member cls c in
  xorb (negated cls) found.

Definition char_matches (i : bool) (p c : ascii) : bool :=
  if i then Ascii.eqb (Canonicalize p) (Canonicalize c) else Ascii.eqb p c.

(** Matching a literal word at the head of [s]: the rest of [s] on success. *)
Fixpoint lit_match (i : bool) (pat s : string) : option string :=
  match pat, s with
  | EmptyString, _ => Some s
  | String p pat', String c s' => if char_matches i p c then lit_match i pat' s' else None
  | String _ _, EmptyString => None
  end.

Section Matcher.
(** Backtracking matcher in continuation-passing style; the state is the
    unread input and the value of capture group 1. *)
Context {R : Type}.
Variable i : bool.

Definition Cont := string -> option string -> option R.

Fixpoint words_match (alts : list string) (s : string) (cap : option string) (k : Cont) : option R :=
  match alts with
  | [] => None
  | w :: rest =>
      match (match lit_match i w s with Some s' => k s' cap | None => None end) with
      | Some r => Some r
      | None => words_match rest s cap k
      end
  end.

(** Greedy: first try to read one more character, then stop here. *)
Fixpoint plus_match (cls : CharClass) (s : string) (cap : option string) (k : Cont) : option R :=
  match s with
  | String c s' =>
      if class_matches i cls c
      then match plus_match cls s' cap k with
           | Some r => Some r
           | None => k s' cap
           end
      else None
  | EmptyString => None
  end.

Fixpoint rmatch (r : Regex) (s : string) (cap : option string) (k : Cont) : option R :=
  match r with
  | RWords alts => words_match alts s cap k
  | RPlus cls => plus_match cls s cap k
  | RSeq r1 r2 => rmatch r1 s cap (fun s' cap' => rmatch r2 s' cap' k)
  | RGroup r1 =>
      rmatch r1 s cap
        (fun s' _ => k s' (Some (take_string (String.length s - String.length s') s)))
  end.
End Matcher.

(** One match attempt anchored at the head of [s]: the number of characters
    consumed and capture group 1. *)
Definition match_at (re : RegExp) (s : string) : option (nat * option string) :=
  rmatch (ignoreCase re) (source re) s None
    (fun s' cap => Some (String.length s - String.length s', cap)).

(** [re.exec(s)] from the head of [s], scanning to the right: group 1 of
    the leftmost match. *)
Fixpoint exec (re : RegExp) (s : string) : option (option string) :=
  match match_at re s with
  | Some (_, cap) => Some cap
  | None =>
      match s with
      | EmptyString => None
      | String _ s' => exec re s'
      end
  end.

(** [re.test(s)] *)
Definition RegExp_test (re : RegExp) (s : string) : bool :=
  match exec re s with Some _ => true | None => false end.

(** [s.match(re)] for a regular expression without the [g] flag. *)
Definition String_match (re : RegExp) (s : string) : option (option string) := exec re s.

(** [Array.from(s.matchAll(re), m => m[1])]: group 1 of the successive
    matches.  [skip] counts the characters of the last match still to be
    passed over (an empty match advances by one position, as
    AdvanceStringIndex does). *)
Fixpoint matchAll_go (re : RegExp) (s : string) (skip : nat) : list (option string) :=
  match s with
  | EmptyString =>
      match skip, match_at re s with
      | O, Some (_, cap) => [cap]
      | _, _ => []
      end
  | String _ s' =>
      match skip with
      | S n => matchAll_go re s' n
      | O =>
          match match_at re s with
          | Some (n, cap) => cap :: matchAll_go re s' (n - 1)
          | None => matchAll_go re s' 0
          end
      end
  end.

Definition matchAll (re : RegExp) (s : string) : list (option string) := matchAll_go re s 0.

(** [s.split(re)] after the SplitMatcher loop of the language definition:
    [tok] is the current piece in reverse, [skip] the characters of the
    separator still to be dropped.  A separator that matches at the start of
    the current piece without consuming anything is not a split point. *)
Fixpoint split_go (re : RegExp) (s : string) (tok : string) (skip : nat) : list string :=
  match s with
  | EmptyString => [String.rev tok]
  | String c s' =>
      match skip with
      | S n => split_go re s' tok n
      | O =>
          match match_at re s with
          | Some (O, _) =>
              match tok with
              | EmptyString => split_go re s' (String c tok) 0
              | _ => String.rev tok :: split_go re s' (String c EmptyString) 0
              end
          | Some (S n, _) => String.rev tok :: split_go re s' EmptyString n
          | None => split_go re s' (String c tok) 0
          end
      end
  end.

Definition split (re : RegExp) (s : string) : list string :=
  match s with
  | EmptyString =>
      match match_at re s with Some _ => [] | None => [s] end
  | _ => split_go re s EmptyString 0
  end.

(** ** The random source

    [Math.random()] returns a double in [0, 1).  Every such double is
    [M / 2^s] for a significand [M < 2^53] and a scale [s] between 53 and
    1074; the k-th call returns the double decoded from [src k].  The only
    use the source makes of it is [Math.floor(Math.random() * n)], computed
    in double arithmetic: the exact product is rounded to 53 significant
    bits, to nearest, ties to even, and then floored. *)

Definition RandomSource := nat -> N.

Definition Rand (A : Type) : Type := RandomSource -> A * RandomSource.

Definition ret {A} (a : A) : Rand A := fun src => (a, src).

Definition bind {A B} (m : Rand A) (k : A -> Rand B) : Rand B :=
  fun src => let (a, src') := m src in k a src'.

Notation "'let*' x ':=' m 'in' k" := (bind m (fun x => k))
  (at level 10, x name, m at level 100, k at level 200).

(** Rounding of a non-negative integer to 53 significant bits, to nearest,
    ties to even: the rounding of double arithmetic, for a value given as
    an integer number of units [2^-s] (no result of this file is small
    enough to be subnormal with more than 53 bits). *)
Definition round_to_double (p : N) : N :=
  if (p <? 2 ^ 53)%N then p
  else
    let k := (N.log2 p - 52)%N in
    let g := (2 ^ k)%N in
    let q := (p / g)%N in
    let r := (p mod g)%N in
    let half := (g / 2)%N in
    if (r <? half)%N then (q * g)%N
    else if (half <? r)%N then ((q + 1) * g)%N
    else ((if N.even q then q else q + 1) * g)%N.

(** The double decoded from [x]: significand and scale. *)
Definition random_significand (x : N) : N := (x mod 2 ^ 53)%N.
Definition random_scale (x : N) : N := (53 + (x / 2 ^ 53) mod 1022)%N.

(** [Math.floor(Math.random() * n)]: [n] is converted to a double, the
    product of the two doubles is rounded, and the result is floored. *)
Definition random_index (n : nat) : Rand nat :=
  fun src =>
    (N.to_nat (round_to_double
                 (random_significand (src 0%nat) * round_to_double (N.of_nat n))
               / 2 ^ random_scale (src 0%nat))%N,
     fun k => src (S k)).

(** ** Arrays *)

Section Arrays.
Context {T : Type}.

(** [[arr[i], arr[j]] = [arr[j], arr[i]]]: both reads happen before the
    two writes.  Outside the bounds of [arr] (never reached from
    [shuffleArray], where [0 <= j <= i < arr.length]) the array is left
    as it is. *)
Definition swap (arr : list T) (i j : nat) : list T :=
  match arr !! j, arr !! i with
  | Some x, Some y => <[j:=y]> (<[i:=x]> arr)
  | _, _ => arr
  end.

(** The body of [for (let i = newArray.length - 1; i > 0; i--)]. *)
Fixpoint shuffle_loop (i : nat) (newArray : list T) : Rand (list T) :=
  match i with
  | O => ret newArray
  | S i' =>
      let* j := random_index (S i' + 1) in
      shuffle_loop i' (swap newArray (S i') j)
  end.

(** [shuffleArray] seen by a caller that only reads its result. *)
Definition shuffleArray (array : list T) : Rand (list T) :=
  shuffle_loop (length array - 1) array.

(** *** The same function on a store of arrays

    A reference is an index into the store; [[...array]] allocates a new
    array, on which all writes of the loop are done. *)
Abbreviation Store := (list (list T)).
Abbreviation ref := nat.

Definition spread_copy (a : ref) (st : Store) : ref * Store :=
  (length st, st ++ [default [] (st !! a)]).

Fixpoint shuffle_loop_store (newArray : ref) (i : nat) (st : Store) : Rand Store :=
  match i with
  | O => ret st
  | S i' =>
      let* j := random_index (S i' + 1) in
      shuffle_loop_store newArray i' (alter (fun arr => swap arr (S i') j) newArray st)
  end.

Definition shuffleArray_store (array : ref) (st : Store) : Rand (ref * Store) :=
  let (newArray, st1) := spread_copy array st in
  let* st2 := shuffle_loop_store newArray (length (default [] (st1 !! newArray)) - 1) st1 in
  ret (newArray, st2).
End Arrays.

(** [[...new Set(array)]]: insertion order, first occurrence kept. *)
Definition Set_insert (acc : list string) (x : string) : list string :=
  if decide (x ∈ acc) then acc else acc ++ [x].

Definition Set_from (array : list string) : list string :=
  foldl Set_insert [] array.

(** [array.find(p) || ''] *)
Fixpoint find_or_empty (p : string -> bool) (array : list string) : string :=
  match array with
  | [] => ""
  | s :: rest => if p s then s else find_or_empty p rest
  end.

(** ** Data model *)

Inductive Difficulty := easy | medium | hard.

Inductive CognitiveLevel := Remember | Understand | Apply | Analyze.

Inductive QuestionType :=
  | QDefinition | QCauseEffect | QComparison | QSequencing | QScenario.

Record TextEntities := {
  processes : list string;
  structures : list string;
  concepts : list string;
  relationships : list (string * string)
}.

Module MCQOption.
Record t := { id : string; text : string; isCorrect : bool }.
End MCQOption.

Module MCQuestion.
Record t := {
  id : string;
  question : string;
  options : list MCQOption.t;
  explanation : option string;
  selectedOption : option string;
  cognitiveLevel : CognitiveLevel;
  type : QuestionType;
  sourceReference : string
}.
End MCQuestion.

(** The result of [generateContextualQuestion]. *)
Module Contextual.
Record t := { question : string; correctAnswer : string; sourceReference : string }.
End Contextual.

Module questionPatterns.
Definition templates (ty : QuestionType) : list string :=
  match ty with
  | QDefinition =>
      ["What is the primary function of {term}?";
       "Which statement best defines {term}?";
       "What characterizes {term}?"]
  | QCauseEffect =>
      ["What happens when {condition}?";
       "What is the direct result of {action}?";
       "Which outcome follows {event}?"]
  | QComparison =>
      ["How does {term1} differ from {term2}?";
       "What distinguishes {term1} from {term2}?";
       "Which feature separates {term1} from {term2}?"]
  | QSequencing =>
      ["What is the correct order of {process}?";
       "Which step follows {event} in {process}?";
       "What is the initial step in {process}?"]
  | QScenario =>
      ["In which situation would {principle} be most applicable?";
       "Which example demonstrates {concept}?";
       "How would {term} be applied in a real-world context?"]
  end.

Definition level (ty : QuestionType) : CognitiveLevel :=
  match ty with
  | QDefinition => Remember
  | QCauseEffect => Understand
  | QComparison => Analyze
  | QSequencing => Understand
  | QScenario => Apply
  end.
End questionPatterns.

(** ** [extractEntities] *)

Definition cls_lower_or_space : CharClass :=
  {| negated := false; items := [CRange "a" "z"; CSpace] |}.
Definition cls_space : CharClass := {| negated := false; items := [CSpace] |}.
Definition cls_sentence_end : CharClass :=
  {| negated := false; items := [CChar "."; CChar "!"; CChar "?"] |}.
Definition cls_not_comma_dot : CharClass :=
  {| negated := true; items := [CChar ","; CChar "."] |}.

(** [/[.!?]+/] *)
Definition re_sentence_end : RegExp :=
  {| source := RPlus cls_sentence_end; ignoreCase := false |}.

(** [/(?:process of |steps in |stages of |cycle of |mechanism of )([a-z\s]+)/gi] *)
Definition processPatterns : RegExp :=
  {| source := RSeq (RWords ["process of "; "steps in "; "stages of "; "cycle of "; "mechanism of "])
                    (RGroup (RPlus cls_lower_or_space));
     ignoreCase := true |}.

(** [/(?:structure of |composed of |made up of |contains |within )([a-z\s]+)/gi] *)
Definition structurePatterns : RegExp :=
  {| source := RSeq (RWords ["structure of "; "composed of "; "made up of "; "contains "; "within "])
                    (RGroup (RPlus cls_lower_or_space));
     ignoreCase := true |}.

(** [/(?:concept of |principle of |theory of |law of |definition of )([a-z\s]+)/gi] *)
Definition conceptPatterns : RegExp :=
  {| source := RSeq (RWords ["concept of "; "principle of "; "theory of "; "law of "; "definition of "])
                    (RGroup (RPlus cls_lower_or_space));
     ignoreCase := true |}.

(** [/(?:compared to|differs from|versus|vs\.|unlike)\s+([^,\.]+)/i] *)
Definition re_comparison : RegExp :=
  {| source := RSeq (RWords ["compared to"; "differs from"; "versus"; "vs."; "unlike"])
                    (RSeq (RPlus cls_space) (RGroup (RPlus cls_not_comma_dot)));
     ignoreCase := true |}.

(** [/\s+(?:and|or)\s+/] *)
Definition re_and_or : RegExp :=
  {| source := RSeq (RPlus cls_space) (RSeq (RWords ["and"; "or"]) (RPlus cls_space));
     ignoreCase := false |}.

(** [m[1]] of a match whose pattern has group 1 outside any alternative, as
    all patterns above do: the group always takes part in the match. *)
Definition group1 (m : option string) : string := default "" m.

(** The body of [sentences.forEach(sentence => ...)]. *)
Definition extract_relationship (relationships : list (string * string)) (sentence : string)
  : list (string * string) :=
  match String_match re_comparison sentence with
  | Some comparisonMatch =>
      match split re_and_or (group1 comparisonMatch) with
      | [t0; t1] => relationships ++ [(trim t0, trim t1)]
      | _ => relationships
      end
  | None => relationships
  end.

(** The constants [words] and [stopWords] of the source are computed and
    never read; they are left out. *)
Definition extractEntities (text : string) : TextEntities :=
  let sentences := filter (fun s => truthy s = true) (map trim (split re_sentence_end text)) in
  let processes := map (fun m => trim (group1 m)) (matchAll processPatterns text) in
  let structures := map (fun m => trim (group1 m)) (matchAll structurePatterns text) in
  let concepts := map (fun m => trim (group1 m)) (matchAll conceptPatterns text) in
  let relationships := foldl extract_relationship [] sentences in
  {| processes := Set_from processes;
     structures := Set_from structures;
     concepts := Set_from concepts;
     relationships := relationships |}.


(** ** [generateContextualQuestion] *)

(** [/\n\n/] *)
Definition re_blank_line : RegExp :=
  {| source := RWords [String LF (String LF "")]; ignoreCase := false |}.

(** [/(?:causes|results in|leads to|produces|triggers)/i] *)
Definition re_causal : RegExp :=
  {| source := RWords ["causes"; "results in"; "leads to"; "produces"; "triggers"];
     ignoreCase := true |}.

(** [array[Math.floor(Math.random() * array.length)]]: [undefined] when the
    index is not an index of the array, as on the empty array. *)
Definition random_element {A} (array : list A) : Rand (option A) :=
  let* idx := random_index (length array) in
  ret (array !! idx).

(** [text.split(/\n\n/)[paragraphNumber - 1] || text] *)
Definition select_paragraph (text : string) (paragraphNumber : nat) : string :=
  let parts := split re_blank_line text in
  match (match paragraphNumber with O => None | S k => parts !! k end) with
  | Some p => if truthy p then p else text
  | None => text
  end.

(** [paragraph.split(/[.!?]+/)] *)
Definition paragraph_sentences (paragraph : string) : list string :=
  split re_sentence_end paragraph.

Definition paragraph_reference (paragraphNumber : nat) : string :=
  "Paragraph " +:+ Number_toString paragraphNumber.

(** [type] is [None] for a value outside the five keys of
    [questionPatterns], which takes the [default] branch of the switch. *)
Definition generateContextualQuestion
    (type : option QuestionType) (entities : TextEntities) (text : string)
    (paragraphNumber : nat) : Rand Contextual.t :=
  let paragraph := select_paragraph text paragraphNumber in
  match type with
  | Some QDefinition =>
      let* concept := random_element (concepts entities) in
      let conceptSentence :=
        find_or_empty (fun s => includes (toLowerCase s) (ToString concept))
                      (paragraph_sentences paragraph) in
      ret {| Contextual.question := "What is " +:+ ToString concept +:+ "?";
             Contextual.correctAnswer := trim conceptSentence;
             Contextual.sourceReference := paragraph_reference paragraphNumber |}
  | Some QComparison =>
      let* pair := random_element (relationships entities) in
      let term1 := fst <$> pair in
      let term2 := snd <$> pair in
      let comparisonSentence :=
        find_or_empty (fun s => includes (toLowerCase s) (ToString term1)
                                && includes (toLowerCase s) (ToString term2))
                      (paragraph_sentences paragraph) in
      ret {| Contextual.question :=
               "How does " +:+ ToString term1 +:+ " differ from " +:+ ToString term2 +:+ "?";
             Contextual.correctAnswer := trim comparisonSentence;
             Contextual.sourceReference := paragraph_reference paragraphNumber |}
  | Some QSequencing =>
      let* process := random_element (processes entities) in
      let processSentence :=
        find_or_empty (fun s => includes (toLowerCase s) (ToString process))
                      (paragraph_sentences paragraph) in
      ret {| Contextual.question := "What is the correct sequence in " +:+ ToString process +:+ "?";
             Contextual.correctAnswer := trim processSentence;
             Contextual.sourceReference := paragraph_reference paragraphNumber |}
  | Some QCauseEffect =>
      let sentences := paragraph_sentences paragraph in
      let causeSentence := find_or_empty (RegExp_test re_causal) sentences in
      ret {| Contextual.question :=
               "What is the effect of " +:+ trim (hd "" (split re_causal causeSentence)) +:+ "?";
             Contextual.correctAnswer := trim causeSentence;
             Contextual.sourceReference := paragraph_reference paragraphNumber |}
  | Some QScenario =>
      let* concept := random_element (concepts entities) in
      let conceptSentence :=
        find_or_empty (fun s => includes (toLowerCase s) (ToString concept))
                      (paragraph_sentences paragraph) in
      ret {| Contextual.question := "Which scenario best demonstrates " +:+ ToString concept +:+ "?";
             Contextual.correctAnswer := trim conceptSentence;
             Contextual.sourceReference := paragraph_reference paragraphNumber |}
  | None =>
      ret {| Contextual.question := "";
             Contextual.correctAnswer := "";
             Contextual.sourceReference := "" |}
  end.

(** ** [generatePlausibleDistractors] *)

Definition difficultyDistractors (difficulty : Difficulty) : list string :=
  match difficulty with
  | easy => ["The process occurs in reverse"; "No interaction takes place"; "The structure is inactive"]
  | medium => ["The relationship is indirect"; "Multiple steps are skipped"; "The effect is temporary"]
  | hard => ["The mechanism is substrate-independent"; "Regulation occurs at a different level";
             "The pathway is non-linear"]
  end.

(** [while (distractors.length < 3) distractors.push(table[distractors.length])],
    unrolled [fuel] times.  An index outside the table (not reached below
    length 3) stops the model. *)
Fixpoint fill_distractors (fuel : nat) (difficulty : Difficulty) (distractors : list string)
  : list string :=
  match fuel with
  | O => distractors
  | S fuel' =>
      if decide (length distractors < 3)%nat
      then match difficultyDistractors difficulty !! length distractors with
           | Some d => fill_distractors fuel' difficulty (distractors ++ [d])
           | None => distractors
           end
      else distractors
  end.

Definition entity_distractors (entities : TextEntities) : list string :=
  let distractors := [] in
  let distractors :=
    match relationships entities with
    | (term1, term2) :: _ => distractors ++ [term2 +:+ " is responsible for " +:+ term1 +:+ "'s function"]
    | [] => distractors
    end in
  let distractors :=
    match structures entities with
    | structure :: _ => distractors ++ [structure +:+ " is involved in a different process"]
    | [] => distractors
    end in
  let distractors :=
    match concepts entities with
    | concept :: _ => distractors ++ [concept +:+ " operates independently of other processes"]
    | [] => distractors
    end in
  distractors.

(** The loop runs at most [3 - distractors.length] times. *)
Definition generatePlausibleDistractors
    (correctAnswer : string) (entities : TextEntities) (difficulty : Difficulty) : list string :=
  let distractors := entity_distractors entities in
  fill_distractors (3 - length distractors) difficulty distractors.

(** ** [generateMockQuestions] *)

Definition questionTypes : list QuestionType :=
  [QDefinition; QCauseEffect; QComparison; QSequencing; QScenario].

(** [String.fromCharCode(n)] *)
Definition String_fromCharCode (n : nat) : string := String (ascii_of_nat n) "".

Definition slot_type (i : nat) : option QuestionType :=
  questionTypes !! (i mod length questionTypes).

Definition slot_paragraph (i : nat) : nat :=
  i / length questionTypes + 1.

Definition slot_options (i : nat) (correctAnswer : string) (distractors : list string)
  : list MCQOption.t :=
  {| MCQOption.id := "q" +:+ Number_toString (i + 1) +:+ "_a";
     MCQOption.text := correctAnswer;
     MCQOption.isCorrect := true |}
  :: imap (fun j d =>
             {| MCQOption.id := "q" +:+ Number_toString (i + 1) +:+ "_" +:+ String_fromCharCode (98 + j);
                MCQOption.text := d;
                MCQOption.isCorrect := false |})
          distractors.

Definition explanation_text (sourceReference correctAnswer : string) : string :=
  "As stated in " +:+ sourceReference +:+ ": " +:+ String DQUOTE (correctAnswer +:+ String DQUOTE "").

Section Generate.
(** [settings.includeExplanations], read from the component state. *)
Variable includeExplanations : bool.
Variables (entities : TextEntities) (text : string) (difficulty : Difficulty).

(** One iteration of the [for] loop at index [i]: the array [questions]
    after it. *)
Definition generate_slot (i : nat) (questions : list MCQuestion.t) : Rand (list MCQuestion.t) :=
  let questionType := slot_type i in
  let paragraphNumber := slot_paragraph i in
  let* g := generateContextualQuestion questionType entities text paragraphNumber in
  if negb (truthy (Contextual.question g)) || negb (truthy (Contextual.correctAnswer g))
  then ret questions
  else
    match questionType with
    | None => ret questions  (* not reached: the default branch returns blank fields *)
    | Some ty =>
        let distractors :=
          generatePlausibleDistractors (Contextual.correctAnswer g) entities difficulty in
        let* options := shuffleArray (slot_options i (Contextual.correctAnswer g) distractors) in
        ret (questions ++
             [{| MCQuestion.id := "q" +:+ Number_toString (i + 1);
                 MCQuestion.question := Contextual.question g;
                 MCQuestion.options := options;
                 MCQuestion.type := ty;
                 MCQuestion.cognitiveLevel := questionPatterns.level ty;
                 MCQuestion.explanation :=
                   if includeExplanations
                   then Some (explanation_text (Contextual.sourceReference g) (Contextual.correctAnswer g))
                   else None;
                 MCQuestion.selectedOption := None;
                 MCQuestion.sourceReference := Contextual.sourceReference g |}])
    end.

(** [for (let i = ...; i < count; i++)] with [n] iterations left. *)
Fixpoint generate_loop (n i : nat) (questions : list MCQuestion.t) : Rand (list MCQuestion.t) :=
  match n with
  | O => ret questions
  | S n' =>
      let* questions' := generate_slot i questions in
      generate_loop n' (S i) questions'
  end.
End Generate.

Definition generateMockQuestions
    (includeExplanations : bool) (text : string) (count : nat) (difficulty : Difficulty)
  : Rand (list MCQuestion.t) :=
  let entities := extractEntities text in
  generate_loop includeExplanations entities text difficulty count 0 [].


(** ** The component state and its handlers *)

Module GenerationSettings.
Record t := {
  questionCount : nat;
  difficulty : Difficulty;
  includeExplanations : bool;
  cognitiveDistribution : bool
}.
End GenerationSettings.

(** What [handleFileUpload] reads of a [File]: its size in bytes, its MIME
    type, and the outcome of [file.text()] ([None] when the promise is
    rejected). *)
Module File.
Record t := { size : N; type : string; text : option string }.
End File.

(** The [useState] cells the handlers write, and the messages passed to
    [alert]. *)
Module App.
Record t := {
  inputText : string;
  fileError : option string;
  isLoading : bool;
  generatedQuestions : list MCQuestion.t;
  settings : GenerationSettings.t;
  alerts : list string
}.

Definition setInputText (v : string) (st : t) : t :=
  {| inputText := v; fileError := fileError st; isLoading := isLoading st;
     generatedQuestions := generatedQuestions st; settings := settings st; alerts := alerts st |}.

Definition setFileError (v : option string) (st : t) : t :=
  {| inputText := inputText st; fileError := v; isLoading := isLoading st;
     generatedQuestions := generatedQuestions st; settings := settings st; alerts := alerts st |}.

Definition setIsLoading (v : bool) (st : t) : t :=
  {| inputText := inputText st; fileError := fileError st; isLoading := v;
     generatedQuestions := generatedQuestions st; settings := settings st; alerts := alerts st |}.

Definition setGeneratedQuestions (v : list MCQuestion.t) (st : t) : t :=
  {| inputText := inputText st; fileError := fileError st; isLoading := isLoading st;
     generatedQuestions := v; settings := settings st; alerts := alerts st |}.

Definition alert (msg : string) (st : t) : t :=
  {| inputText := inputText st; fileError := fileError st; isLoading := isLoading st;
     generatedQuestions := generatedQuestions st; settings := settings st;
     alerts := alerts st ++ [msg] |}.
End App.

Definition allowedTypes : list string :=
  ["text/plain"; "application/pdf";
   "application/vnd.openxmlformats-officedocument.wordprocessingml.document"].

(** [allowedTypes.includes(type)] *)
Definition Array_includes (array : list string) (x : string) : bool :=
  existsb (String.eqb x) array.

(** [handleFileUpload]; [file] is [event.target.files?.[0]]. *)
Definition handleFileUpload (file : option File.t) (st : App.t) : App.t :=
  let st := App.setFileError None st in
  match file with
  | None => st
  | Some file =>
      if (10 * 1024 * 1024 <? File.size file)%N
      then App.setFileError (Some "File size must be less than 10MB") st
      else if negb (Array_includes allowedTypes (File.type file))
      then App.setFileError (Some "Only TXT, PDF, and DOCX files are supported") st
      else match File.text file with
           | Some text => App.setInputText text st
           | None => App.setFileError (Some "Error reading file. Please try again.") st
           end
  end.

(** [handleGenerate], after its timer has fired.  Nothing in
    [generateMockQuestions] throws, so the [catch] branch is not taken. *)
Definition handleGenerate (st : App.t) : Rand App.t :=
  if negb (truthy (trim (App.inputText st)))
  then ret (App.alert "Please enter some text or upload a file" st)
  else
    let st := App.setIsLoading true st in
    let* questions :=
      generateMockQuestions
        (GenerationSettings.includeExplanations (App.settings st))
        (App.inputText st)
        (GenerationSettings.questionCount (App.settings st))
        (GenerationSettings.difficulty (App.settings st)) in
    let st := App.setGeneratedQuestions questions st in
    ret (App.setIsLoading false st).

(** [{ ...q, selectedOption: optionId }] *)
Definition with_selectedOption (q : MCQuestion.t) (optionId : string) : MCQuestion.t :=
  {| MCQuestion.id := MCQuestion.id q;
     MCQuestion.question := MCQuestion.question q;
     MCQuestion.options := MCQuestion.options q;
     MCQuestion.explanation := MCQuestion.explanation q;
     MCQuestion.selectedOption := Some optionId;
     MCQuestion.cognitiveLevel := MCQuestion.cognitiveLevel q;
     MCQuestion.type := MCQuestion.type q;
     MCQuestion.sourceReference := MCQuestion.sourceReference q |}.

(** The updater that [handleOptionSelect] passes to
    [setGeneratedQuestions]. *)
Definition select_option (questionId optionId : string) (questions : list MCQuestion.t)
  : list MCQuestion.t :=
  map (fun q => if String.eqb (MCQuestion.id q) questionId
                then with_selectedOption q optionId
                else q)
      questions.

Definition handleOptionSelect (questionId optionId : string) (st : App.t) : App.t :=
  App.setGeneratedQuestions (select_option questionId optionId (App.generatedQuestions st)) st.

(** *** What the result list shows for one option *)

Inductive Icon := CheckGreen | XRed.

Inductive OptionStyle := BorderGreen | BorderRed | BorderGrayDimmed | BorderGrayHover.

(** Truthiness of [q.selectedOption] ([string | undefined]). *)
Definition truthy_opt (v : option string) : bool :=
  match v with Some s => truthy s | None => false end.

(** [option.id === q.selectedOption] *)
Definition is_selected (q : MCQuestion.t) (opt : MCQOption.t) : bool :=
  match MCQuestion.selectedOption q with
  | Some sel => String.eqb (MCQOption.id opt) sel
  | None => false
  end.

(** The icon expression inside the option button. *)
Definition option_icon (q : MCQuestion.t) (opt : MCQOption.t) : option Icon :=
  if truthy_opt (MCQuestion.selectedOption q)
  then if is_selected q opt
       then if MCQOption.isCorrect opt then Some CheckGreen else Some XRed
       else if MCQOption.isCorrect opt then Some CheckGreen else None
  else None.

(** The conditional part of the button's [className]. *)
Definition option_style (q : MCQuestion.t) (opt : MCQOption.t) : OptionStyle :=
  if truthy_opt (MCQuestion.selectedOption q)
  then if is_selected q opt
       then if MCQOption.isCorrect opt then BorderGreen else BorderRed
       else if MCQOption.isCorrect opt then BorderGreen else BorderGrayDimmed
  else BorderGrayHover.

(** [q.selectedOption && q.explanation]: whether the explanation box is
    rendered. *)
Definition explanation_shown (q : MCQuestion.t) : bool :=
  truthy_opt (MCQuestion.selectedOption q) && truthy_opt (MCQuestion.explanation q).

(** ** Vocabulary of the statements *)

Section Slots.
Variable includeExplanations : bool.
Variables (entities : TextEntities) (text : string) (difficulty : Difficulty).

(** The record pushed by slot [i] when the synthesis [g] passes the
    blank test and the shuffle returns [options]. *)
Definition slot_question (i : nat) (ty : QuestionType) (g : Contextual.t)
    (options : list MCQOption.t) : MCQuestion.t :=
  {| MCQuestion.id := "q" +:+ Number_toString (i + 1);
     MCQuestion.question := Contextual.question g;
     MCQuestion.options := options;
     MCQuestion.type := ty;
     MCQuestion.cognitiveLevel := questionPatterns.level ty;
     MCQuestion.explanation :=
       if includeExplanations
       then Some (explanation_text (Contextual.sourceReference g) (Contextual.correctAnswer g))
       else None;
     MCQuestion.selectedOption := None;
     MCQuestion.sourceReference := Contextual.sourceReference g |}.

(** [q] is what slot [i] pushes for some state of the random source. *)
Definition produced_by_slot (i : nat) (q : MCQuestion.t) : Prop :=
  exists ty g src src1,
    slot_type i = Some ty /\
    generateContextualQuestion (Some ty) entities text (slot_paragraph i) src = (g, src1) /\
    truthy (Contextual.question g) = true /\
    truthy (Contextual.correctAnswer g) = true /\
    q = slot_question i ty g
          (fst (shuffleArray
                  (slot_options i (Contextual.correctAnswer g)
                     (generatePlausibleDistractors (Contextual.correctAnswer g) entities difficulty))
                  src1)).
End Slots.

(** The options of a question with [isCorrect = true]. *)
Definition correct_options (options : list MCQOption.t) : list MCQOption.t :=
  filter (fun o => MCQOption.isCorrect o = true) options.

(** The entity collection a question type draws from; cause-effect draws
    from none. *)
Definition required_collection_empty (ty : QuestionType) (entities : TextEntities) : Prop :=
  match ty with
  | QDefinition | QScenario => concepts entities = []
  | QSequencing => processes entities = []
  | QComparison => relationships entities = []
  | QCauseEffect => False
  end.

Definition no_entities : TextEntities :=
  {| processes := []; structures := []; concepts := []; relationships := [] |}.

(** The pattern ends with capture group 1, outside any alternative. *)
Fixpoint ends_with_group (r : Regex) : bool :=
  match r with
  | RGroup _ => true
  | RSeq _ r2 => ends_with_group r2
  | _ => false
  end.

(** [s] does not start, respectively end, with a white-space character. *)
Definition head_ok (s : string) : bool :=
  match s with
  | EmptyString => true
  | String c _ => negb (isWhiteSpace c)
  end.

Fixpoint last_ok (s : string) : bool :=
  match s with
  | EmptyString => true
  | String c EmptyString => negb (isWhiteSpace c)
  | String _ s' => last_ok s'
  end.

(** Some character of [s] is not white space. *)
Fixpoint has_nonspace (s : string) : bool :=
  match s with
  | EmptyString => false
  | String c s' => negb (isWhiteSpace c) || has_nonspace s'
  end.

(** A random source whose next draw is [m] and which then continues as
    [src]. *)
Definition draw_then (m : N) (src : RandomSource) : RandomSource :=
  fun k => match k with O => m | S k' => src k' end.

(** A draw [m] for which [Math.floor(Math.random() * n)] is [j]. *)
Definition draw_for (n j : nat) : N :=
  ((N.of_nat j * 2 ^ 53 + N.of_nat n - 1) / N.of_nat n)%N.

(** Every character of [s] satisfies [P]. *)
Fixpoint string_forallb (P : ascii -> bool) (s : string) : bool :=
  match s with
  | EmptyString => true
  | String c s' => P c && string_forallb P s'
  end.

Definition is_ascii_letter (c : ascii) : bool :=
  in_range 65 90 c || in_range 97 122 c.

(** The last two characters of [s], last one first. *)
Definition last_two (s : string) : string := take_string 2 (String.rev s).

(** The pattern ends with the capturing group [([cls]+)]. *)
Inductive captures_class (cls : CharClass) : Regex -> Prop :=
  | captures_group : captures_class cls (RGroup (RPlus cls))
  | captures_seq r1 r2 : captures_class cls r2 -> captures_class cls (RSeq r1 r2).

Definition letter_or_space (c : ascii) : bool := is_ascii_letter c || isWhiteSpace c.

Definition not_comma_dot (c : ascii) : bool :=
  negb (Ascii.eqb c "," || Ascii.eqb c ".").

(** The identifiers built by slot [i]. *)
Definition question_id (i : nat) : string := "q" +:+ Number_toString (i + 1).

Definition option_ids (i : nat) : list string :=
  [question_id i +:+ "_a"; question_id i +:+ "_b"; question_id i +:+ "_c"; question_id i +:+ "_d"].

#[global] Instance Icon_eq_dec : EqDecision Icon.
Proof. solve_decision. Defined.

(** How many options of [q] are rendered with the icon [icon]. *)
Definition count_icon (icon : Icon) (q : MCQuestion.t) : nat :=
  length (filter (fun o => option_icon q o = Some icon) (MCQuestion.options q)).

(** The loop body of [generateMockQuestions] after the call of the
    synthesizer (the blank test, the distractors, the shuffle and the
    push), for the question type [questionType] given to slot [i] and the
    synthesizer's result [g]. *)
Definition assemble_slot
    (includeExplanations : bool) (entities : TextEntities) (difficulty : Difficulty)
    (questionType : option QuestionType) (i : nat) (g : Contextual.t)
    (questions : list MCQuestion.t) : Rand (list MCQuestion.t) :=
  if negb (truthy (Contextual.question g)) || negb (truthy (Contextual.correctAnswer g))
  then ret questions
  else
    match questionType with
    | None => ret questions
    | Some ty =>
        let distractors :=
          generatePlausibleDistractors (Contextual.correctAnswer g) entities difficulty in
        let* options := shuffleArray (slot_options i (Contextual.correctAnswer g) distractors) in
        ret (questions ++
             [{| MCQuestion.id := "q" +:+ Number_toString (i + 1);
                 MCQuestion.question := Contextual.question g;
                 MCQuestion.options := options;
                 MCQuestion.type := ty;
                 MCQuestion.cognitiveLevel := questionPatterns.level ty;
                 MCQuestion.explanation :=
                   if includeExplanations
                   then Some (explanation_text (Contextual.sourceReference g) (Contextual.correctAnswer g))
                   else None;
                 MCQuestion.selectedOption := None;
                 MCQuestion.sourceReference := Contextual.sourceReference g |}])
    end.

(** Running a loop body once for each item of a list, in order, threading
    the questions and the random source. *)
Fixpoint for_each_slot {A : Type} (body : A -> list MCQuestion.t -> Rand (list MCQuestion.t))
    (items : list A) (questions : list MCQuestion.t) : Rand (list MCQuestion.t) :=
  match items with
  | [] => ret questions
  | a :: rest =>
      let* questions' := body a questions in
      for_each_slot body rest questions'
  end.

(** * Properties *)

(** ** The matcher *)

Section MatcherFacts.
Context {R : Type}.
Variable i : bool.

(** A successful match is a result of its continuation. *)
Lemma words_match_calls alts s cap (k : Cont) (res : R) :
  words_match i alts s cap k = Some res -> exists s', k s' cap = Some res.
Proof.
  induction alts as [|w rest IH]; simpl; [discriminate|].
  destruct (lit_match i w s) as [s'|]; [|exact IH].
  destruct (k s' cap) as [r|] eqn:Hk; [|exact IH].
  intros [= <-]. exists s'. exact Hk.
Qed.

Lemma plus_match_calls cls s cap (k : Cont) (res : R) :
  plus_match i cls s cap k = Some res -> exists s', k s' cap = Some res.
Proof.
  induction s as [|c s IH]; simpl; [discriminate|].
  destruct (class_matches i cls c); [|discriminate].
  destruct (plus_match i cls s cap k) as [r|] eqn:Hrec.
  - intros [= <-]. apply IH. reflexivity.
  - intros Hk. exists s. exact Hk.
Qed.

Lemma rmatch_calls r : forall s cap (k : Cont) (res : R),
  rmatch i r s cap k = Some res -> exists s' cap', k s' cap' = Some res.
Proof.
  induction r as [alts|cls|r1 IH1 r2 IH2|r1 IH1]; intros s cap k res Hm; simpl in Hm.
  - apply words_match_calls in Hm as [s' Hk]. eauto.
  - apply plus_match_calls in Hm as [s' Hk]. eauto.
  - apply IH1 in Hm as (s1 & cap1 & Hm). apply IH2 in Hm. exact Hm.
  - apply IH1 in Hm as (s1 & cap1 & Hm). eauto.
Qed.

Lemma rmatch_ends_with_group r : forall s cap (k : Cont) (res : R),
  ends_with_group r = true ->
  rmatch i r s cap k = Some res -> exists s' c, k s' (Some c) = Some res.
Proof.
  induction r as [alts|cls|r1 IH1 r2 IH2|r1 IH1]; intros s cap k res Hend Hm;
    simpl in Hend, Hm; try discriminate Hend.
  - apply rmatch_calls in Hm as (s1 & cap1 & Hm). eapply IH2; eassumption.
  - apply rmatch_calls in Hm as (s1 & cap1 & Hm). eauto.
Qed.
End MatcherFacts.

Lemma match_at_group_defined re s n cap :
  ends_with_group (source re) = true -> match_at re s = Some (n, cap) -> is_Some cap.
Proof.
  intros Hend Hm. unfold match_at in Hm.
  apply rmatch_ends_with_group in Hm as (s' & c & Hk); [|exact Hend].
  injection Hk as _ <-. eauto.
Qed.

Lemma exec_group_defined re s m :
  ends_with_group (source re) = true -> exec re s = Some m -> is_Some m.
Proof.
  intros Hend. induction s as [|c s IH]; cbn [exec];
    destruct (match_at re _) as [[n cap]|] eqn:Hm.
  - intros [= <-]. eapply match_at_group_defined; eassumption.
  - discriminate.
  - intros [= <-]. eapply match_at_group_defined; eassumption.
  - exact IH.
Qed.

Lemma matchAll_group_defined re s :
  ends_with_group (source re) = true -> Forall is_Some (matchAll re s).
Proof.
  intros Hend. unfold matchAll. generalize 0%nat as skip.
  induction s as [|c s IH]; intros skip; cbn [matchAll_go].
  - destruct skip; [|constructor].
    destruct (match_at re "") as [[n cap]|] eqn:Hm; [|constructor].
    apply Forall_singleton. eapply match_at_group_defined; eassumption.
  - destruct skip as [|skip]; [|apply IH].
    destruct (match_at re (String c s)) as [[n cap]|] eqn:Hm; [|apply IH].
    constructor; [|apply IH]. eapply match_at_group_defined; eassumption.
Qed.

(** Every [m[1]] read by [extractEntities] is a string: [group1] never
    meets [undefined]. *)
Lemma extractEntities_group1_defined (text sentence : string) :
  Forall is_Some (matchAll processPatterns text) /\
  Forall is_Some (matchAll structurePatterns text) /\
  Forall is_Some (matchAll conceptPatterns text) /\
  (forall m, String_match re_comparison sentence = Some m -> is_Some m).
Proof.
  repeat split; try (apply matchAll_group_defined; reflexivity).
  intros m. apply exec_group_defined. reflexivity.
Qed.

(** ** The random source *)

Lemma round_to_double_small (p : N) : (p < 2 ^ 53)%N -> round_to_double p = p.
Proof.
  intros Hp. unfold round_to_double.
  destruct (N.ltb_spec p (2 ^ 53)%N) as [_|Hge]; [reflexivity|lia].
Qed.

Lemma round_to_double_le (p : N) : (p <= 2 ^ 53)%N -> round_to_double p = p.
Proof.
  intros Hp. destruct (N.eq_dec p (2 ^ 53)%N) as [->|Hne]; [reflexivity|].
  apply round_to_double_small. lia.
Qed.

(** Above 2^53 the result is a multiple of the spacing [g] of doubles
    around [p], not below the multiple under [p], and at most half a
    spacing away from [p]. *)
Lemma round_to_double_bounds (p : N) :
  (2 ^ 53 <= p)%N ->
  let g := (2 ^ (N.log2 p - 52))%N in
  (g * 2 ^ 52 <= p)%N /\
  (p / g * g <= round_to_double p)%N /\
  (2 * round_to_double p <= 2 * p + g)%N.
Proof.
  intros Hp g.
  assert (Hpos : (0 < p)%N) by (assert (0 < 2 ^ 53)%N by reflexivity; lia).
  destruct (N.log2_spec p Hpos) as [Hlo _].
  assert (Hlog : (53 <= N.log2 p)%N).
  { apply N.log2_le_pow2; assumption. }
  assert (Hg52 : (g * 2 ^ 52 = 2 ^ N.log2 p)%N).
  { subst g. rewrite <- N.pow_add_r. f_equal. lia. }
  assert (Hhalf : (g = 2 * (g / 2))%N).
  { subst g. replace (N.log2 p - 52)%N with (N.succ (N.log2 p - 53))%N by lia.
    rewrite N.pow_succ_r'. rewrite N.mul_comm, N.div_mul by discriminate. lia. }
  assert (Hgpos : (0 < g)%N) by (subst g; apply N.neq_0_lt_0, N.pow_nonzero; discriminate).
  split; [rewrite Hg52; exact Hlo|].
  unfold round_to_double.
  destruct (N.ltb_spec p (2 ^ 53)%N) as [Hlt|_]; [lia|].
  fold g. cbv zeta.
  pose proof (N.div_mod p g ltac:(lia)) as Hdm.
  pose proof (N.mod_lt p g ltac:(lia)) as Hr.
  set (q := (p / g)%N) in *. set (r := (p mod g)%N) in *. set (half := (g / 2)%N) in *.
  destruct (N.ltb_spec r half) as [H1|H1]; [split; nia|].
  destruct (N.ltb_spec half r) as [H2|H2]; [split; nia|].
  destruct (N.even q); split; nia.
Qed.

Lemma random_scale_ge (x : N) : (2 ^ 53 <= 2 ^ random_scale x)%N.
Proof. unfold random_scale. apply N.pow_le_mono_r; [discriminate|apply N.le_add_r]. Qed.

Lemma random_index_lt (n : nat) (src : RandomSource) :
  (0 < n)%nat -> (N.of_nat n <= 2 ^ 53)%N -> (fst (random_index n src) < n)%nat.
Proof.
  intros Hn Hsize. unfold random_index. cbn [fst].
  rewrite (round_to_double_le (N.of_nat n) Hsize).
  set (m := random_significand (src 0%nat)).
  assert (Hm : (m < 2 ^ 53)%N) by (apply N.mod_lt; discriminate).
  pose proof (random_scale_ge (src 0%nat)) as Hs.
  set (S := (2 ^ random_scale (src 0%nat))%N) in *.
  set (K := N.of_nat n) in *.
  assert (HK : (0 < K)%N) by (subst K; lia).
  assert (HB : (0 < 2 ^ 53)%N) by reflexivity.
  assert (Hround : (round_to_double (m * K) < 2 ^ 53 * K)%N).
  { destruct (N.lt_ge_cases (m * K) (2 ^ 53)%N) as [Hsmall|Hbig].
    - rewrite round_to_double_small by exact Hsmall. nia.
    - destruct (round_to_double_bounds (m * K) Hbig) as (Hg & _ & Hup).
      set (g := (2 ^ (N.log2 (m * K) - 52))%N) in *.
      assert (H52 : (2 ^ 53 = 2 * 2 ^ 52)%N) by reflexivity.
      nia. }
  assert (Hq : (round_to_double (m * K) / S < K)%N).
  { apply N.Div0.div_lt_upper_bound. nia. }
  lia.
Qed.

Lemma random_index_zero (src : RandomSource) : fst (random_index 0 src) = 0%nat.
Proof.
  unfold random_index. cbn [fst]. change (round_to_double (N.of_nat 0)) with 0%N.
  rewrite N.mul_0_r. reflexivity.
Qed.

Lemma random_element_nil {A} (src : RandomSource) :
  fst (random_element (@nil A) src) = None.
Proof. reflexivity. Qed.

(** ** [shuffleArray] *)

Section ArrayFacts.
Context {T : Type}.
Implicit Types (arr : list T) (st : list (list T)).

Lemma swap_Permutation arr i j : swap arr i j ≡ₚ arr.
Proof.
  unfold swap.
  destruct (arr !! j) as [x|] eqn:Hj; [|reflexivity].
  destruct (arr !! i) as [y|] eqn:Hi; [|reflexivity].
  eapply Permutation_insert_swap; eassumption.
Qed.

Lemma shuffle_loop_Permutation i arr src : fst (shuffle_loop i arr src) ≡ₚ arr.
Proof.
  revert arr src. induction i as [|i IH]; intros arr src; simpl.
  - reflexivity.
  - unfold bind. destruct (random_index _ src) as [j src'].
    etransitivity; [apply IH | apply swap_Permutation].
Qed.

Lemma shuffleArray_Permutation arr src : fst (shuffleArray arr src) ≡ₚ arr.
Proof. apply shuffle_loop_Permutation. Qed.

(** The loop on the store does to the cell [b] what the loop on lists
    does to its contents, and touches no other cell. *)
Lemma shuffle_loop_store_spec (b : nat) i st arr src :
  st !! b = Some arr ->
  shuffle_loop_store b i st src =
    (<[b := fst (shuffle_loop i arr src)]> st, snd (shuffle_loop i arr src)).
Proof.
  revert st arr src. induction i as [|i IH]; intros st arr src Hb; simpl.
  - unfold ret. simpl. rewrite list_insert_id; done.
  - unfold bind. destruct (random_index _ src) as [j src'].
    rewrite (IH _ (swap arr (S i) j)).
    + f_equal. apply list_eq. intros k.
      destruct (decide (b = k)) as [->|Hne].
      * pose proof (lookup_lt_Some _ _ _ Hb) as Hlt.
        rewrite !list_lookup_insert_eq by (rewrite ?length_alter; exact Hlt).
        reflexivity.
      * rewrite !list_lookup_insert_ne by done.
        apply list_lookup_alter_ne. done.
    + rewrite list_lookup_alter_eq, Hb. reflexivity.
Qed.
End ArrayFacts.

(** C5.  [shuffleArray] returns a permutation of its argument (hence of
    the same length), and works on a copy: called on the array at
    reference [a] of a store, it returns a reference [b] that did not exist
    before, every array of the old store (the argument included) is
    unchanged, and the array at [b] is the shuffled copy. *)
Theorem shuffleArray_permutes_a_copy
    {T : Type} (st : list (list T)) (a : nat) (array : list T) (src : RandomSource)
    (Ha : st !! a = Some array) :
  fst (shuffleArray array src) ≡ₚ array /\
  length (fst (shuffleArray array src)) = length array /\
  let '(b, st') := fst (shuffleArray_store a st src) in
  st' !! a = Some array /\
  (forall r, (r < length st)%nat -> st' !! r = st !! r) /\
  st !! b = None /\
  st' !! b = Some (fst (shuffleArray array src)).
Proof.
  pose proof (shuffleArray_Permutation array src) as HP.
  split; [exact HP|].
  split; [apply Permutation_length; exact HP|].
  unfold shuffleArray_store, spread_copy. rewrite Ha. simpl.
  assert (Hb : (st ++ [array]) !! length st = Some array).
  { rewrite lookup_app_r by lia. rewrite Nat.sub_diag. reflexivity. }
  unfold bind. rewrite Hb. simpl.
  rewrite (shuffle_loop_store_spec _ _ _ array) by exact Hb. simpl.
  assert (Hlt : (a < length st)%nat) by (eapply lookup_lt_Some; eassumption).
  assert (Hold : forall r, (r < length st)%nat ->
            <[length st := fst (shuffle_loop (length array - 1) array src)]> (st ++ [array]) !! r
            = st !! r).
  { intros r Hr. rewrite list_lookup_insert_ne by lia. apply lookup_app_l. exact Hr. }
  repeat split.
  - rewrite Hold by exact Hlt. exact Ha.
  - exact Hold.
  - apply lookup_ge_None. lia.
  - apply list_lookup_insert_eq. rewrite length_app. simpl. lia.
Qed.

Lemma shuffleArray_permutes_a_copy_witness :
  let st := [[10; 20; 30]; [7]]%nat in
  let array := [10; 20; 30]%nat in
  let src : RandomSource := fun k => (N.of_nat k * 3000000000000000 + 5000000000000000)%N in
  st !! 0%nat = Some array /\
  fst (shuffleArray_store 0 st src) = (2%nat, [[10; 20; 30]; [7]; [10; 30; 20]]%nat) /\
  fst (shuffleArray array src) ≡ₚ array /\
  length (fst (shuffleArray array src)) = length array /\
  let '(b, st') := fst (shuffleArray_store 0 st src) in
  st' !! 0%nat = Some array /\
  (forall r, (r < length st)%nat -> st' !! r = st !! r) /\
  st !! b = None /\
  st' !! b = Some (fst (shuffleArray array src)).
Proof.
  intros st array src.
  split; [reflexivity|].
  split; [vm_compute; reflexivity|].
  apply (shuffleArray_permutes_a_copy st 0%nat array src). reflexivity.
Defined.

(** ** [generatePlausibleDistractors] *)

Lemma entity_distractors_length (entities : TextEntities) :
  (length (entity_distractors entities) <= 3)%nat.
Proof.
  unfold entity_distractors.
  destruct (relationships entities) as [|[t1 t2] ?], (structures entities), (concepts entities);
    simpl; lia.
Qed.

(** The loop ends because its condition is false, not because the unrolling
    ran out: from any array of at most 3 entries the result has 3. *)
Lemma fill_distractors_length (difficulty : Difficulty) (distractors : list string) :
  (length distractors <= 3)%nat ->
  length (fill_distractors (3 - length distractors) difficulty distractors) = 3%nat.
Proof.
  intros Hlen.
  destruct distractors as [|d0 [|d1 [|d2 [|d3 rest]]]]; simpl in Hlen; try lia;
    destruct difficulty; reflexivity.
Qed.

Lemma generatePlausibleDistractors_length correctAnswer entities difficulty :
  length (generatePlausibleDistractors correctAnswer entities difficulty) = 3%nat.
Proof.
  unfold generatePlausibleDistractors.
  apply fill_distractors_length, entity_distractors_length.
Qed.

(** C2.  [generatePlausibleDistractors] returns exactly 3 strings for every
    answer, entity set and difficulty; on an entity set with four empty
    collections these are the three entries of the difficulty's table. *)
Theorem generatePlausibleDistractors_three :
  (forall correctAnswer entities difficulty,
      length (generatePlausibleDistractors correctAnswer entities difficulty) = 3%nat) /\
  (forall correctAnswer difficulty,
      generatePlausibleDistractors correctAnswer
        {| processes := []; structures := []; concepts := []; relationships := [] |} difficulty
      = difficultyDistractors difficulty).
Proof.
  split.
  - apply generatePlausibleDistractors_length.
  - intros correctAnswer []; reflexivity.
Qed.

(** C10.  The distractors do not depend on [correctAnswer]: two calls whose
    entity sets agree on the first relationship pair, the first structure
    and the first concept, at the same difficulty, return the same list
    whatever the two answers are. *)
Theorem generatePlausibleDistractors_ignores_answer
    (answer1 answer2 : string) (entities1 entities2 : TextEntities) (difficulty : Difficulty)
    (Hrel : head (relationships entities1) = head (relationships entities2))
    (Hstr : head (structures entities1) = head (structures entities2))
    (Hcon : head (concepts entities1) = head (concepts entities2)) :
  generatePlausibleDistractors answer1 entities1 difficulty
  = generatePlausibleDistractors answer2 entities2 difficulty.
Proof.
  unfold generatePlausibleDistractors.
  assert (He : entity_distractors entities1 = entity_distractors entities2).
  { unfold entity_distractors.
    destruct (relationships entities1) as [|[a1 b1] ?], (relationships entities2) as [|[a2 b2] ?];
      simpl in Hrel; try discriminate;
    destruct (structures entities1), (structures entities2); simpl in Hstr; try discriminate;
    destruct (concepts entities1), (concepts entities2); simpl in Hcon; try discriminate;
    congruence. }
  rewrite He. reflexivity.
Qed.

Lemma generatePlausibleDistractors_ignores_answer_witness :
  let e1 := {| processes := ["p"]; structures := ["wall"; "core"]; concepts := [];
               relationships := [("x", "y")] |} in
  let e2 := {| processes := []; structures := ["wall"]; concepts := [];
               relationships := [("x", "y"); ("u", "v")] |} in
  generatePlausibleDistractors "first answer" e1 hard
  = generatePlausibleDistractors "The relationship is indirect" e2 hard.
Proof.
  intros e1 e2.
  apply (generatePlausibleDistractors_ignores_answer
           "first answer" "The relationship is indirect" e1 e2 hard); reflexivity.
Defined.

(** ** The orchestrator loop *)

Lemma truthy_true (s : string) : truthy s = true <-> s <> "".
Proof. destruct s; simpl; split; congruence. Qed.

Lemma generateContextualQuestion_sourceReference ty entities text paragraphNumber src :
  Contextual.sourceReference
    (fst (generateContextualQuestion (Some ty) entities text paragraphNumber src))
  = paragraph_reference paragraphNumber.
Proof. destruct ty; reflexivity. Qed.

Section Orchestrator.
Variable includeExplanations : bool.
Variables (entities : TextEntities) (text : string) (difficulty : Difficulty).


Lemma generate_slot_cases i questions src :
  let out := fst (generate_slot includeExplanations entities text difficulty i questions src) in
  out = questions \/ exists q, produced_by_slot includeExplanations entities text difficulty i q /\ out = questions ++ [q].
Proof.
  unfold generate_slot, bind.
  destruct (generateContextualQuestion (slot_type i) entities text (slot_paragraph i) src)
    as [g src1] eqn:Hg.
  destruct (truthy (Contextual.question g)) eqn:Hq; simpl; [|left; reflexivity].
  destruct (truthy (Contextual.correctAnswer g)) eqn:Ha; simpl; [|left; reflexivity].
  destruct (slot_type i) as [ty|] eqn:Hty; [|left; reflexivity].
  right.
  destruct (shuffleArray _ src1) as [options src2] eqn:Hs. simpl.
  eexists. split; [|reflexivity].
  exists ty, g, src, src1. rewrite Hs. simpl. auto.
Qed.

Lemma generate_loop_slots n : forall i questions src,
  Forall (fun q => exists j, (j < i)%nat /\ produced_by_slot includeExplanations entities text difficulty j q) questions ->
  Forall (fun q => exists j, (j < i + n)%nat /\ produced_by_slot includeExplanations entities text difficulty j q)
    (fst (generate_loop includeExplanations entities text difficulty n i questions src)).
Proof.
  induction n as [|n IH]; intros i questions src Hqs; simpl.
  - eapply Forall_impl; [exact Hqs|]. intros q (j & Hj & Hp). exists j. split; [lia|exact Hp].
  - unfold bind.
    pose proof (generate_slot_cases i questions src) as Hcase.
    destruct (generate_slot includeExplanations entities text difficulty i questions src)
      as [questions' src'] eqn:Hslot.
    simpl in Hcase.
    replace (i + S n)%nat with (S i + n)%nat by lia.
    apply IH.
    assert (Hold : Forall (fun q => exists j, (j < S i)%nat /\ produced_by_slot includeExplanations entities text difficulty j q) questions).
    { eapply Forall_impl; [exact Hqs|]. intros q (j & Hj & Hp). exists j. split; [lia|exact Hp]. }
    destruct Hcase as [->|(q & Hq & ->)]; [exact Hold|].
    apply Forall_app. split; [exact Hold|].
    apply Forall_singleton. exists i. split; [lia|exact Hq].
Qed.

Lemma generate_loop_length n : forall i questions src,
  (length (fst (generate_loop includeExplanations entities text difficulty n i questions src))
   <= length questions + n)%nat.
Proof.
  induction n as [|n IH]; intros i questions src; simpl; [lia|].
  unfold bind.
  pose proof (generate_slot_cases i questions src) as Hcase.
  destruct (generate_slot includeExplanations entities text difficulty i questions src)
    as [questions' src'] eqn:Hslot.
  simpl in Hcase. specialize (IH (S i) questions' src').
  destruct Hcase as [->|(q & _ & ->)]; [lia|].
  rewrite length_app in IH. simpl in IH. lia.
Qed.

(** The loop only ever appends. *)
Lemma generate_loop_prefix n : forall i questions src,
  questions `prefix_of`
    fst (generate_loop includeExplanations entities text difficulty n i questions src).
Proof.
  induction n as [|n IH]; intros i questions src; simpl; [reflexivity|].
  unfold bind.
  pose proof (generate_slot_cases i questions src) as Hcase.
  destruct (generate_slot includeExplanations entities text difficulty i questions src)
    as [questions' src'] eqn:Hslot.
  simpl in Hcase. specialize (IH (S i) questions' src').
  destruct Hcase as [->|(q & _ & ->)]; [exact IH|].
  etransitivity; [|exact IH]. apply prefix_app_r. reflexivity.
Qed.
End Orchestrator.

Lemma generateMockQuestions_slots includeExplanations text count difficulty src :
  Forall (fun q => exists j, (j < count)%nat /\
                    produced_by_slot includeExplanations (extractEntities text) text difficulty j q)
    (fst (generateMockQuestions includeExplanations text count difficulty src)).
Proof.
  unfold generateMockQuestions.
  apply (generate_loop_slots includeExplanations (extractEntities text) text difficulty count 0 [] src).
  constructor.
Qed.

(** ** Options of a produced question *)


Lemma slot_options_shape i correctAnswer distractors :
  length distractors = 3%nat ->
  length (slot_options i correctAnswer distractors) = 4%nat /\
  correct_options (slot_options i correctAnswer distractors)
  = [{| MCQOption.id := "q" +:+ Number_toString (i + 1) +:+ "_a";
        MCQOption.text := correctAnswer;
        MCQOption.isCorrect := true |}].
Proof.
  intros Hlen.
  destruct distractors as [|d0 [|d1 [|d2 [|d3 rest]]]]; simpl in Hlen; try lia.
  split; reflexivity.
Qed.

Lemma produced_options includeExplanations entities text difficulty i q :
  produced_by_slot includeExplanations entities text difficulty i q ->
  exists g,
    MCQuestion.options q ≡ₚ
      slot_options i (Contextual.correctAnswer g)
        (generatePlausibleDistractors (Contextual.correctAnswer g) entities difficulty) /\
    MCQuestion.id q = "q" +:+ Number_toString (i + 1) /\
    slot_type i = Some (MCQuestion.type q) /\
    MCQuestion.sourceReference q = paragraph_reference (slot_paragraph i) /\
    MCQuestion.explanation q =
      (if includeExplanations
       then Some (explanation_text (paragraph_reference (slot_paragraph i)) (Contextual.correctAnswer g))
       else None).
Proof.
  intros (ty & g & src & src1 & Hty & Hg & _ & _ & ->).
  exists g. simpl.
  assert (Hsr : Contextual.sourceReference g = paragraph_reference (slot_paragraph i)).
  { rewrite <- (generateContextualQuestion_sourceReference ty entities text (slot_paragraph i) src).
    rewrite Hg. reflexivity. }
  rewrite Hsr.
  split; [apply shuffleArray_Permutation|]. auto.
Qed.

(** C1.  Every question returned by [generateMockQuestions] has exactly 4
    options, exactly one of which has [isCorrect = true]. *)
Theorem generateMockQuestions_options includeExplanations text count difficulty src :
  Forall (fun q => length (MCQuestion.options q) = 4%nat /\
                   length (correct_options (MCQuestion.options q)) = 1%nat)
    (fst (generateMockQuestions includeExplanations text count difficulty src)).
Proof.
  eapply Forall_impl; [apply generateMockQuestions_slots|].
  intros q (j & _ & Hp). simpl.
  apply produced_options in Hp as (g & HP & _).
  destruct (slot_options_shape j (Contextual.correctAnswer g)
              (generatePlausibleDistractors (Contextual.correctAnswer g) (extractEntities text) difficulty))
    as [Hlen Hcorrect]; [apply generatePlausibleDistractors_length|].
  unfold correct_options in *. rewrite HP, Hcorrect. split; [exact Hlen|reflexivity].
Qed.

(** C6.  Without [includeExplanations] no returned question carries an
    explanation.  With it, every returned question's explanation is
    [As stated in Paragraph N: "A"], where [N] is the paragraph index of the
    question's slot (the one named by its [sourceReference]) and [A] is the
    text of its correct option. *)
Theorem generateMockQuestions_explanation text count difficulty src :
  Forall (fun q => MCQuestion.explanation q = None)
    (fst (generateMockQuestions false text count difficulty src)) /\
  Forall (fun q =>
            exists (i N : nat) (correctAnswer : string),
              (i < count)%nat /\
              MCQuestion.id q = "q" +:+ Number_toString (i + 1) /\
              N = (i / 5 + 1)%nat /\
              MCQuestion.sourceReference q = "Paragraph " +:+ Number_toString N /\
              (exists o, o ∈ MCQuestion.options q /\
                         MCQOption.isCorrect o = true /\ MCQOption.text o = correctAnswer) /\
              (forall o, o ∈ MCQuestion.options q ->
                         MCQOption.isCorrect o = true -> MCQOption.text o = correctAnswer) /\
              MCQuestion.explanation q =
                Some ("As stated in Paragraph " +:+ Number_toString N +:+ ": " +:+
                      String DQUOTE "" +:+ correctAnswer +:+ String DQUOTE ""))
    (fst (generateMockQuestions true text count difficulty src)).
Proof.
  split.
  - eapply Forall_impl; [apply generateMockQuestions_slots|].
    intros q (j & _ & Hp). simpl.
    apply produced_options in Hp as (g & _ & _ & _ & _ & He). exact He.
  - eapply Forall_impl; [apply generateMockQuestions_slots|].
    intros q (j & Hj & Hp). simpl.
    apply produced_options in Hp as (g & HP & Hid & _ & Hsr & He).
    exists j, (j / 5 + 1)%nat, (Contextual.correctAnswer g).
    destruct (slot_options_shape j (Contextual.correctAnswer g)
                (generatePlausibleDistractors (Contextual.correctAnswer g) (extractEntities text) difficulty))
      as [_ Hcorrect]; [apply generatePlausibleDistractors_length|].
    split; [exact Hj|]. split; [exact Hid|]. split; [reflexivity|].
    split; [exact Hsr|]. split; [|split].
    + exists {| MCQOption.id := "q" +:+ Number_toString (j + 1) +:+ "_a";
                MCQOption.text := Contextual.correctAnswer g;
                MCQOption.isCorrect := true |}.
      split; [|split; reflexivity].
      rewrite HP. apply list_elem_of_here.
    + intros o Ho Hc. rewrite HP in Ho.
      assert (Hin : o ∈ correct_options
                      (slot_options j (Contextual.correctAnswer g)
                         (generatePlausibleDistractors (Contextual.correctAnswer g)
                            (extractEntities text) difficulty))).
      { unfold correct_options. apply list_elem_of_filter. split; assumption. }
      rewrite Hcorrect in Hin. apply list_elem_of_singleton in Hin. subst o. reflexivity.
    + rewrite He. reflexivity.
Qed.

Lemma bind_ext {A B : Type} (m m' : Rand A) (k k' : A -> Rand B) (src : RandomSource) :
  m src = m' src -> (forall a src1, k a src1 = k' a src1) -> bind m k src = bind m' k' src.
Proof.
  intros Hm Hk. unfold bind. rewrite Hm. destruct (m' src) as [a src1]. apply Hk.
Qed.

Lemma generate_loop_for_each includeExplanations entities text difficulty n :
  forall i questions src,
    generate_loop includeExplanations entities text difficulty n i questions src
    = for_each_slot
        (fun '(i, questionType, paragraphNumber) questions =>
           let* g := generateContextualQuestion questionType entities text paragraphNumber in
           assemble_slot includeExplanations entities difficulty questionType i g questions)
        (map (fun i => (i, [QDefinition; QCauseEffect; QComparison; QSequencing; QScenario]
                             !! (i mod 5)%nat, (i / 5 + 1)%nat))
             (seq i n))
        questions src.
Proof.
  induction n as [|n IH]; intros i questions src; [reflexivity|].
  cbn [generate_loop seq map for_each_slot].
  apply bind_ext; [reflexivity|].
  intros questions1 src1. apply IH.
Qed.

(** C4.  The orchestrator runs its loop body once for each slot
    [i = 0 .. count-1], in order, and at slot [i] it calls the synthesizer
    with the type at position [i mod 5] of the fixed list definition,
    cause-effect, comparison, sequencing, scenario (always defined) and
    with the paragraph index [i / 5 + 1], before any skipping; for 12 slots
    the types are the list below; and a returned question numbered [i + 1]
    carries the type and the paragraph of slot [i]. *)
Theorem slot_assignment_round_robin :
  (forall i : nat,
      slot_type i = [QDefinition; QCauseEffect; QComparison; QSequencing; QScenario] !! (i mod 5)%nat /\
      is_Some (slot_type i) /\
      slot_paragraph i = (i / 5 + 1)%nat) /\
  map slot_type (seq 0 12) =
    map Some [QDefinition; QCauseEffect; QComparison; QSequencing; QScenario;
              QDefinition; QCauseEffect; QComparison; QSequencing; QScenario;
              QDefinition; QCauseEffect] /\
  (forall includeExplanations text count difficulty src,
      Forall (fun q => exists i : nat,
                (i < count)%nat /\
                MCQuestion.id q = "q" +:+ Number_toString (i + 1) /\
                slot_type i = Some (MCQuestion.type q) /\
                MCQuestion.sourceReference q = "Paragraph " +:+ Number_toString (i / 5 + 1))
        (fst (generateMockQuestions includeExplanations text count difficulty src))) /\
  (forall includeExplanations entities text difficulty (i : nat) questions src,
      generate_slot includeExplanations entities text difficulty i questions src
      = (let* g := generateContextualQuestion
                     ([QDefinition; QCauseEffect; QComparison; QSequencing; QScenario]
                        !! (i mod 5)%nat) entities text (i / 5 + 1) in
         assemble_slot includeExplanations entities difficulty
           ([QDefinition; QCauseEffect; QComparison; QSequencing; QScenario] !! (i mod 5)%nat)
           i g questions) src) /\
  (forall includeExplanations text count difficulty src,
      generateMockQuestions includeExplanations text count difficulty src
      = for_each_slot
          (fun '(i, questionType, paragraphNumber) questions =>
             let* g := generateContextualQuestion questionType (extractEntities text) text
                         paragraphNumber in
             assemble_slot includeExplanations (extractEntities text) difficulty
               questionType i g questions)
          (map (fun i => (i, [QDefinition; QCauseEffect; QComparison; QSequencing; QScenario]
                               !! (i mod 5)%nat, (i / 5 + 1)%nat))
               (seq 0 count))
          [] src) /\
  map (fun i => (i, [QDefinition; QCauseEffect; QComparison; QSequencing; QScenario]
                      !! (i mod 5)%nat, (i / 5 + 1)%nat))
      (seq 0 12)
  = [(0, Some QDefinition, 1); (1, Some QCauseEffect, 1); (2, Some QComparison, 1);
     (3, Some QSequencing, 1); (4, Some QScenario, 1);
     (5, Some QDefinition, 2); (6, Some QCauseEffect, 2); (7, Some QComparison, 2);
     (8, Some QSequencing, 2); (9, Some QScenario, 2);
     (10, Some QDefinition, 3); (11, Some QCauseEffect, 3)]%nat.
Proof.
  split; [|split; [|split; [|split; [|split]]]].
  - intros i. split; [reflexivity|]. split; [|reflexivity].
    unfold slot_type. apply lookup_lt_is_Some.
    apply Nat.mod_upper_bound. discriminate.
  - reflexivity.
  - intros includeExplanations text count difficulty src.
    eapply Forall_impl; [apply generateMockQuestions_slots|].
    intros q (j & Hj & Hp). simpl.
    apply produced_options in Hp as (g & _ & Hid & Hty & Hsr & _).
    exists j. auto.
  - reflexivity.
  - intros includeExplanations text count difficulty src.
    unfold generateMockQuestions. apply generate_loop_for_each.
  - reflexivity.
Qed.

(** C3.  [generateMockQuestions] returns at most [count] questions, and on
    the text without cue phrases it returns no question at all for
    [count = 10], whatever the random source. *)
Theorem generateMockQuestions_at_most_count :
  (forall includeExplanations text count difficulty src,
      (length (fst (generateMockQuestions includeExplanations text count difficulty src)) <= count)%nat) /\
  (forall src,
      fst (generateMockQuestions true "Hello world. This is plain text with no markers." 10 medium src)
      = []).
Proof.
  split.
  - intros includeExplanations text count difficulty src. unfold generateMockQuestions.
    apply (generate_loop_length includeExplanations (extractEntities text) text difficulty count 0 [] src).
  - intros src. vm_compute. reflexivity.
Qed.

(** ** The synthesizer on missing data *)

Lemma find_or_empty_ext (p q : string -> bool) (array : list string) :
  (forall s, p s = q s) -> find_or_empty p array = find_or_empty q array.
Proof.
  intros Hpq. induction array as [|s rest IH]; simpl; [reflexivity|].
  rewrite Hpq, IH. reflexivity.
Qed.

Lemma find_or_empty_none (p : string -> bool) (array : list string) :
  (forall s, s ∈ array -> p s = false) -> find_or_empty p array = "".
Proof.
  induction array as [|s rest IH]; intros Hall; simpl; [reflexivity|].
  rewrite (Hall s) by apply list_elem_of_here.
  apply IH. intros s' Hs'. apply Hall. apply list_elem_of_further. exact Hs'.
Qed.

Lemma find_or_empty_found (p : string -> bool) (array : list string) (s : string) :
  s ∈ array -> p s = true -> p (find_or_empty p array) = true.
Proof.
  induction array as [|s0 rest IH]; intros Hin Hp.
  - inversion Hin.
  - simpl. destruct (p s0) eqn:Hp0; [exact Hp0|].
    apply IH; [|exact Hp].
    apply elem_of_cons in Hin as [->|Hin]; [congruence|exact Hin].
Qed.


(** With no concept the definition branch returns a question field that is
    not blank. *)
Lemma synthesizer_blank_on_empty_counterexample :
  let g := fst (generateContextualQuestion (Some QDefinition) no_entities "Hello" 1 (fun _ => 0%N)) in
  required_collection_empty QDefinition no_entities /\
  Contextual.question g = "What is undefined?" /\
  ~ (Contextual.question g = "" /\ Contextual.correctAnswer g = "").
Proof.
  split; [reflexivity|]. split; [reflexivity|].
  intros [Hq _]. vm_compute in Hq. discriminate Hq.
Qed.

(** The general form: when the collection a question type draws from is
    empty, the question field is the type's phrase around the word
    [undefined], and [correctAnswer] is blank as soon as no sentence of the
    selected paragraph contains the text [undefined]. *)
Lemma synthesizer_on_empty_collection
    (ty : QuestionType) (entities : TextEntities) (text : string)
    (paragraphNumber : nat) (src : RandomSource)
    (Hempty : required_collection_empty ty entities) :
  let g := fst (generateContextualQuestion (Some ty) entities text paragraphNumber src) in
  let sentences := paragraph_sentences (select_paragraph text paragraphNumber) in
  Contextual.question g =
    match ty with
    | QDefinition => "What is undefined?"
    | QComparison => "How does undefined differ from undefined?"
    | QSequencing => "What is the correct sequence in undefined?"
    | QScenario => "Which scenario best demonstrates undefined?"
    | QCauseEffect => Contextual.question g
    end /\
  Contextual.question g <> "" /\
  Contextual.correctAnswer g =
    trim (find_or_empty (fun s => includes (toLowerCase s) "undefined") sentences) /\
  ((forall s, s ∈ sentences -> includes (toLowerCase s) "undefined" = false) ->
   Contextual.correctAnswer g = "").
Proof.
  intros g sentences.
  assert (Hq : Contextual.question g =
    match ty with
    | QDefinition => "What is undefined?"
    | QComparison => "How does undefined differ from undefined?"
    | QSequencing => "What is the correct sequence in undefined?"
    | QScenario => "Which scenario best demonstrates undefined?"
    | QCauseEffect => Contextual.question g
    end).
  { subst g. destruct ty; simpl in Hempty; try contradiction;
      unfold generateContextualQuestion; rewrite Hempty; reflexivity. }
  assert (Ha : Contextual.correctAnswer g =
    trim (find_or_empty (fun s => includes (toLowerCase s) "undefined") sentences)).
  { subst g sentences. destruct ty; simpl in Hempty; try contradiction;
      unfold generateContextualQuestion; rewrite Hempty; try reflexivity.
    cbn. f_equal. apply find_or_empty_ext. intros s. apply andb_diag. }
  split; [exact Hq|]. split; [|split; [exact Ha|]].
  - rewrite Hq. destruct ty; simpl in Hempty; try contradiction; discriminate.
  - intros Hnone. rewrite Ha, find_or_empty_none by exact Hnone. reflexivity.
Qed.

Lemma synthesizer_on_empty_collection_witness :
  let text := "Hello world. This is plain text with no markers." in
  let g := fst (generateContextualQuestion (Some QScenario) no_entities text 1 (fun _ => 7%N)) in
  required_collection_empty QScenario no_entities /\
  Contextual.question g = "Which scenario best demonstrates undefined?" /\
  Contextual.correctAnswer g = "".
Proof.
  intros text g.
  assert (Hempty : required_collection_empty QScenario no_entities) by reflexivity.
  destruct (synthesizer_on_empty_collection QScenario no_entities text 1 (fun _ => 7%N) Hempty)
    as (Hq & _ & _ & Hblank).
  split; [exact Hempty|]. split; [exact Hq|].
  apply Hblank. intros s Hs. vm_compute in Hs.
  repeat (apply elem_of_cons in Hs as [->|Hs]; [reflexivity|]).
  inversion Hs.
Defined.

(** C7 at the text [The variable x is Undefined here. Nothing else.], from
    which no entity is extracted.  The definition branch does not test
    that [concepts] is empty: it reads past the end of the empty array,
    takes [undefined] for the concept, and returns a question and an
    answer that are both not blank; the orchestrator then emits four
    questions about [undefined] instead of skipping the slots. *)
Theorem synthesizer_does_not_guard_empty_collection :
  let text := "The variable x is Undefined here. Nothing else." in
  let src : RandomSource := fun k => (N.of_nat k * 1000000000000000 + 123456789)%N in
  extractEntities text = no_entities /\
  fst (random_element (concepts no_entities) src) = None /\
  fst (generateContextualQuestion (Some QDefinition) no_entities text 1 src)
  = {| Contextual.question := "What is undefined?";
       Contextual.correctAnswer := "The variable x is Undefined here";
       Contextual.sourceReference := "Paragraph 1" |} /\
  map (fun q => (MCQuestion.id q, MCQuestion.question q, MCQuestion.type q))
      (fst (generateMockQuestions true text 5 medium src))
  = [("q1", "What is undefined?", QDefinition);
     ("q3", "How does undefined differ from undefined?", QComparison);
     ("q4", "What is the correct sequence in undefined?", QSequencing);
     ("q5", "Which scenario best demonstrates undefined?", QScenario)].
Proof. intros text src. repeat split; vm_compute; reflexivity. Qed.

(** ** Cause-effect synthesis *)


Lemma has_nonspace_rev_app (s acc : string) :
  has_nonspace (String.rev_app s acc) = has_nonspace s || has_nonspace acc.
Proof.
  revert acc. induction s as [|c s IH]; intros acc; simpl; [reflexivity|].
  rewrite IH. simpl. destruct (isWhiteSpace c), (has_nonspace s), (has_nonspace acc); reflexivity.
Qed.

Lemma has_nonspace_rev (s : string) : has_nonspace (String.rev s) = has_nonspace s.
Proof. unfold String.rev. rewrite has_nonspace_rev_app. simpl. apply orb_false_r. Qed.

Lemma has_nonspace_trimStart (s : string) : has_nonspace (trimStart s) = has_nonspace s.
Proof.
  induction s as [|c s IH]; simpl; [reflexivity|].
  destruct (isWhiteSpace c) eqn:Hc; simpl; [exact IH|].
  rewrite Hc. reflexivity.
Qed.

Lemma has_nonspace_trim (s : string) : has_nonspace (trim s) = has_nonspace s.
Proof.
  unfold trim, trimEnd.
  rewrite has_nonspace_rev, has_nonspace_trimStart, has_nonspace_rev.
  apply has_nonspace_trimStart.
Qed.

Lemma trim_nonempty (s : string) : has_nonspace s = true -> trim s <> "".
Proof.
  intros Hs Htrim. rewrite <- has_nonspace_trim, Htrim in Hs. discriminate Hs.
Qed.

(** No causal verb starts with a white-space character. *)
Lemma match_at_causal_space (c : ascii) (s : string) :
  isWhiteSpace c = true -> match_at re_causal (String c s) = None.
Proof.
  intros Hc.
  destruct c as [[] [] [] [] [] [] [] []]; try discriminate Hc; reflexivity.
Qed.

Lemma causal_sentence_has_nonspace (s : string) :
  RegExp_test re_causal s = true -> has_nonspace s = true.
Proof.
  unfold RegExp_test.
  induction s as [|c s IH]; intros Htest.
  - discriminate Htest.
  - simpl. destruct (isWhiteSpace c) eqn:Hc; [|reflexivity].
    simpl. apply IH.
    cbn [exec] in Htest. rewrite (match_at_causal_space c s Hc) in Htest. exact Htest.
Qed.

(** A cause-effect slot whose paragraph has a causal sentence pushes one
    question, whatever the entities are. *)
Lemma generate_slot_cause_effect includeExplanations entities text difficulty i questions src s :
  slot_type i = Some QCauseEffect ->
  s ∈ paragraph_sentences (select_paragraph text (slot_paragraph i)) ->
  RegExp_test re_causal s = true ->
  exists q,
    MCQuestion.type q = QCauseEffect /\
    fst (generate_slot includeExplanations entities text difficulty i questions src)
    = questions ++ [q].
Proof.
  intros Hty Hin Htest.
  unfold generate_slot. rewrite Hty.
  unfold generateContextualQuestion, bind, ret. cbn [fst snd Contextual.question Contextual.correctAnswer].
  set (found := find_or_empty (RegExp_test re_causal)
                  (paragraph_sentences (select_paragraph text (slot_paragraph i)))).
  assert (Hfound : truthy (trim found) = true).
  { apply truthy_true, trim_nonempty, causal_sentence_has_nonspace.
    eapply find_or_empty_found; eassumption. }
  rewrite Hfound.
  match goal with
  | |- context [truthy (?a +:+ ?b)] => change (truthy (a +:+ b)) with true
  end.
  cbn [negb orb].
  destruct (shuffleArray (slot_options i (trim found) _) src) as [options src2].
  eexists. split; [|reflexivity]. reflexivity.
Qed.

(** C9.  The cause-effect branch reads neither the entities nor the random
    source.  When a sentence of the selected paragraph matches a causal
    verb, it returns a non-blank question and a non-blank [correctAnswer]
    for every entity set, the empty one included; and when that paragraph
    is the first one, [generateMockQuestions] on 2 slots or more returns a
    cause-effect question. *)
Theorem cause_effect_needs_no_entities
    (text : string) (paragraphNumber : nat) (s : string)
    (Hin : s ∈ paragraph_sentences (select_paragraph text paragraphNumber))
    (Hcausal : RegExp_test re_causal s = true) :
  (forall entities1 entities2 src1 src2,
      fst (generateContextualQuestion (Some QCauseEffect) entities1 text paragraphNumber src1)
      = fst (generateContextualQuestion (Some QCauseEffect) entities2 text paragraphNumber src2)) /\
  (forall entities src,
      let g := fst (generateContextualQuestion (Some QCauseEffect) entities text paragraphNumber src) in
      Contextual.correctAnswer g <> "" /\ Contextual.question g <> "") /\
  (paragraphNumber = 1%nat ->
   forall includeExplanations count difficulty src,
     (2 <= count)%nat ->
     exists q,
       q ∈ fst (generateMockQuestions includeExplanations text count difficulty src) /\
       MCQuestion.type q = QCauseEffect).
Proof.
  split; [|split].
  - reflexivity.
  - intros entities src g. subst g. split.
    + cbn. apply trim_nonempty, causal_sentence_has_nonspace.
      eapply find_or_empty_found; eassumption.
    + cbn. discriminate.
  - intros -> includeExplanations count difficulty src Hcount.
    destruct count as [|[|n]]; try lia.
    unfold generateMockQuestions.
    cbn [generate_loop]. unfold bind at 1.
    destruct (generate_slot includeExplanations (extractEntities text) text difficulty 0 [] src)
      as [questions0 src0].
    unfold bind at 1.
    destruct (generate_slot_cause_effect includeExplanations (extractEntities text) text difficulty
                1 questions0 src0 s eq_refl Hin Hcausal) as (q & Hq & Hslot).
    destruct (generate_slot includeExplanations (extractEntities text) text difficulty 1 questions0 src0)
      as [questions1 src1].
    simpl in Hslot. subst questions1.
    exists q. split; [|exact Hq].
    eapply elem_of_prefix;
      [|apply (generate_loop_prefix includeExplanations (extractEntities text) text difficulty)].
    apply elem_of_app. right. apply list_elem_of_here.
Qed.

Lemma cause_effect_needs_no_entities_witness :
  let text := "Heat causes expansion." in
  extractEntities text = no_entities /\
  "Heat causes expansion" ∈ paragraph_sentences (select_paragraph text 1) /\
  RegExp_test re_causal "Heat causes expansion" = true /\
  Contextual.correctAnswer
    (fst (generateContextualQuestion (Some QCauseEffect) no_entities text 1 (fun _ => 0%N))) <> "".
Proof.
  intros text.
  assert (Hin : "Heat causes expansion" ∈ paragraph_sentences (select_paragraph text 1)).
  { vm_compute. apply list_elem_of_here. }
  assert (Hcausal : RegExp_test re_causal "Heat causes expansion" = true) by reflexivity.
  split; [reflexivity|]. split; [exact Hin|]. split; [exact Hcausal|].
  exact (proj1 (proj1 (proj2 (cause_effect_needs_no_entities text 1 "Heat causes expansion" Hin Hcausal))
                  no_entities (fun _ => 0%N))).
Defined.

(** ** [extractEntities] *)

Lemma Set_insert_NoDup (acc : list string) (x : string) :
  NoDup acc -> NoDup (Set_insert acc x).
Proof.
  intros Hacc. unfold Set_insert. destruct (decide (x ∈ acc)) as [Hin|Hnin]; [exact Hacc|].
  apply NoDup_app. split; [exact Hacc|]. split.
  - intros y Hy Hy'. apply list_elem_of_singleton in Hy'. subst y. contradiction.
  - apply NoDup_singleton.
Qed.

Lemma Set_from_NoDup (array : list string) : NoDup (Set_from array).
Proof.
  unfold Set_from.
  assert (H : forall acc, NoDup acc -> NoDup (foldl Set_insert acc array)).
  { induction array as [|x rest IH]; intros acc Hacc; simpl; [exact Hacc|].
    apply IH, Set_insert_NoDup, Hacc. }
  apply H. constructor.
Qed.

Lemma Set_from_elem (x : string) (array : list string) : x ∈ Set_from array <-> x ∈ array.
Proof.
  unfold Set_from.
  assert (H : forall acc, x ∈ foldl Set_insert acc array <-> x ∈ acc \/ x ∈ array).
  { induction array as [|y rest IH]; intros acc; simpl.
    - split; [auto|]. intros [H|H]; [exact H|inversion H].
    - rewrite IH. unfold Set_insert. rewrite elem_of_cons.
      destruct (decide (y ∈ acc)) as [Hin|Hnin].
      + split; [tauto|]. intros [H|[->|H]]; auto.
      + rewrite elem_of_app, list_elem_of_singleton. tauto. }
  rewrite H. split; [|auto]. intros [Hnil|Hin]; [inversion Hnil|exact Hin].
Qed.

(** *** [trim] is idempotent *)

Lemma rev_app_rev_app (s a b : string) :
  String.rev_app (String.rev_app s a) b = String.rev_app a (s +:+ b).
Proof.
  revert a b. induction s as [|c s IH]; intros a b; [reflexivity|].
  cbn [String.rev_app]. rewrite IH. reflexivity.
Qed.

Lemma app_empty_r (s : string) : s +:+ "" = s.
Proof.
  induction s as [|c s IH]; [reflexivity|].
  change (String c (s +:+ "") = String c s). f_equal. exact IH.
Qed.

Lemma rev_involutive (s : string) : String.rev (String.rev s) = s.
Proof. unfold String.rev. rewrite rev_app_rev_app. apply app_empty_r. Qed.

Lemma head_ok_rev_app (s acc : string) :
  s <> "" -> head_ok (String.rev_app s acc) = last_ok s.
Proof.
  revert acc. induction s as [|c s IH]; intros acc Hne; [congruence|].
  destruct s as [|c' s]; [reflexivity|].
  cbn [String.rev_app] in *. rewrite IH by discriminate. reflexivity.
Qed.

Lemma head_ok_rev (s : string) : head_ok (String.rev s) = last_ok s.
Proof.
  destruct s as [|c s]; [reflexivity|]. apply head_ok_rev_app. discriminate.
Qed.

Lemma last_ok_rev (s : string) : last_ok (String.rev s) = head_ok s.
Proof. rewrite <- head_ok_rev, rev_involutive. reflexivity. Qed.

Lemma head_ok_trimStart (s : string) : head_ok (trimStart s) = true.
Proof.
  induction s as [|c s IH]; simpl; [reflexivity|].
  destruct (isWhiteSpace c) eqn:Hc; [exact IH|]. simpl. rewrite Hc. reflexivity.
Qed.

Lemma trimStart_id (s : string) : head_ok s = true -> trimStart s = s.
Proof.
  destruct s as [|c s]; simpl; [reflexivity|].
  destruct (isWhiteSpace c); [discriminate|reflexivity].
Qed.

Lemma last_ok_trimStart (s : string) : last_ok s = true -> last_ok (trimStart s) = true.
Proof.
  induction s as [|c s IH]; intros Hs; [reflexivity|].
  cbn [trimStart]. destruct (isWhiteSpace c) eqn:Hc; [|exact Hs].
  apply IH. destruct s as [|c' s]; [|exact Hs].
  simpl in Hs. rewrite Hc in Hs. discriminate Hs.
Qed.

Lemma trim_ends_ok (s : string) : head_ok (trim s) = true /\ last_ok (trim s) = true.
Proof.
  unfold trim, trimEnd. split.
  - rewrite head_ok_rev. apply last_ok_trimStart.
    rewrite last_ok_rev. apply head_ok_trimStart.
  - rewrite last_ok_rev. apply head_ok_trimStart.
Qed.

Lemma trim_idempotent (s : string) : trim (trim s) = trim s.
Proof.
  destruct (trim_ends_ok s) as [Hh Hl].
  set (u := trim s) in *. unfold trim at 1, trimEnd.
  rewrite (trimStart_id u Hh).
  rewrite trimStart_id by (rewrite head_ok_rev; exact Hl).
  apply rev_involutive.
Qed.

(** The part of the phrase invariant that the code keeps: the three phrase
    collections have no duplicates and every phrase is its own [trim]. *)
Lemma extractEntities_distinct_trimmed (text : string) :
  let entities := extractEntities text in
  NoDup (processes entities) /\ NoDup (structures entities) /\ NoDup (concepts entities) /\
  (forall phrase,
      phrase ∈ processes entities \/ phrase ∈ structures entities \/ phrase ∈ concepts entities ->
      trim phrase = phrase).
Proof.
  simpl. repeat split; try apply Set_from_NoDup.
  intros phrase Hin.
  assert (Hmap : exists re, phrase ∈ map (fun m => trim (group1 m)) (matchAll re text)).
  { destruct Hin as [H|[H|H]]; apply (proj1 (Set_from_elem _ _)) in H;
      [exists processPatterns|exists structurePatterns|exists conceptPatterns]; exact H. }
  destruct Hmap as (re & Hmap).
  apply list_elem_of_fmap in Hmap as (m & -> & _). apply trim_idempotent.
Qed.

(** C8 at the input [The list contains  3 items.] (two spaces after
    [contains]): the group captures one space, [trim] makes it the empty
    string, and nothing removes it, so [structures] holds an empty phrase. *)
Theorem extractEntities_keeps_empty_phrase :
  extractEntities "The list contains  3 items."
  = {| processes := []; structures := [""]; concepts := []; relationships := [] |}.
Proof. vm_compute. reflexivity. Qed.

(** ** The model at work *)

Example split_sentence_end : split re_sentence_end "..a.b!?c." = [""; "a"; "b"; "c"; ""].
Proof. reflexivity. Qed.

Example split_empty : split re_sentence_end "" = [""].
Proof. reflexivity. Qed.

Example split_and_or : split re_and_or "mitosis and  meiosis or c and" = ["mitosis"; "meiosis"; "c and"].
Proof. reflexivity. Qed.

(** Backtracking of [\s+] when the group cannot start after the whole run
    of spaces: the group takes the last space. *)
Example comparison_backtracks :
  String_match re_comparison "a versus  , b" = Some (Some " ").
Proof. reflexivity. Qed.

Example comparison_case_insensitive :
  String_match re_comparison "Mitosis DIFFERS From meiosis and budding, ok" = Some (Some "meiosis and budding").
Proof. reflexivity. Qed.

Example paragraph_fallback :
  select_paragraph ("one" +:+ String LF (String LF "two")) 2 = "two" /\
  select_paragraph ("one" +:+ String LF (String LF "two")) 3 = "one" +:+ String LF (String LF "two") /\
  select_paragraph ("one" +:+ String LF (String LF "two")) 0 = "one" +:+ String LF (String LF "two").
Proof. repeat split; reflexivity. Qed.

Example extractEntities_sample :
  extractEntities
    "The process of cell division is vital. The concept of energy is old. Mitosis differs from meiosis and budding, ok? The cell contains water"
  = {| processes := ["cell division is vital"];
       structures := ["water"];
       concepts := ["energy is old"];
       relationships := [("meiosis", "budding")] |}.
Proof. vm_compute. reflexivity. Qed.

Example generateMockQuestions_sample :
  map (fun q => (MCQuestion.id q, MCQuestion.question q, MCQuestion.type q,
                 map MCQOption.id (MCQuestion.options q)))
    (fst (generateMockQuestions true
            "The concept of energy is old. Heat causes expansion in metals." 3 easy
            (fun k => (N.of_nat k * 7919 * 104729 * 1299709 + 4000000000000000)%N)))
  = [("q1", "What is energy is old?", QDefinition, ["q1_a"; "q1_b"; "q1_d"; "q1_c"]);
     ("q2", "What is the effect of Heat?", QCauseEffect, ["q2_b"; "q2_c"; "q2_a"; "q2_d"])].
Proof. vm_compute. reflexivity. Qed.


(** * Further properties of the code *)

(** ** Random choice *)

(** [Math.floor(Math.random() * array.length)], computed in double
    arithmetic, is an index of a non-empty array (of a length that a double
    holds exactly, as every array length is), so the element read at it is
    defined and is one of the array's. *)
Theorem random_element_of_nonempty {A : Type} (array : list A) (src : RandomSource)
    (Hne : array <> [])
    (Hsize : (N.of_nat (length array) <= 2 ^ 53)%N) :
  (fst (random_index (length array) src) < length array)%nat /\
  exists x, fst (random_element array src) = Some x /\ x ∈ array.
Proof.
  assert (Hlen : (0 < length array)%nat) by (destruct array; [congruence|simpl; lia]).
  pose proof (random_index_lt (length array) src Hlen Hsize) as Hlt.
  split; [exact Hlt|].
  unfold random_element, bind, ret.
  destruct (random_index (length array) src) as [idx src'] eqn:Hidx. simpl in *.
  destruct (lookup_lt_is_Some_2 array idx Hlt) as [x Hx].
  exists x. split; [exact Hx|]. eapply list_elem_of_lookup_2. exact Hx.
Qed.

Lemma random_element_of_nonempty_witness :
  ["energy"; "entropy"; "work"] <> [] /\
  (N.of_nat (length ["energy"; "entropy"; "work"]) <= 2 ^ 53)%N /\
  exists x, fst (random_element ["energy"; "entropy"; "work"] (fun _ => 6000000000000000%N)) = Some x /\
            x ∈ ["energy"; "entropy"; "work"].
Proof.
  assert (Hne : ["energy"; "entropy"; "work"] <> []) by discriminate.
  assert (Hsize : (N.of_nat (length ["energy"; "entropy"; "work"]) <= 2 ^ 53)%N)
    by (vm_compute; discriminate).
  split; [exact Hne|]. split; [exact Hsize|].
  exact (proj2 (random_element_of_nonempty ["energy"; "entropy"; "work"]
                  (fun _ => 6000000000000000%N) Hne Hsize)).
Defined.

(** The draw at which the exact product is [4 - 2^-52], which double
    arithmetic rounds to 4. *)
Example random_index_rounds_up :
  fst (random_index 7 (fun _ => 5146971002709138%N)) = 4%nat.
Proof. vm_compute. reflexivity. Qed.

(** ** Every permutation can come out of [shuffleArray] *)

Lemma draw_for_spec (n j : nat) (src : RandomSource) :
  (j < n)%nat -> (N.of_nat n <= 2 ^ 32)%N ->
  fst (random_index n (draw_then (draw_for n j) src)) = j.
Proof.
  intros Hj Hn. unfold random_index, draw_then, draw_for. cbn [fst].
  assert (H32 : (2 ^ 32 <= 2 ^ 53)%N) by (vm_compute; discriminate).
  rewrite (round_to_double_le (N.of_nat n)) by lia.
  set (B := (2 ^ 53)%N) in *. set (J := N.of_nat j). set (K := N.of_nat n) in *.
  assert (HK : (0 < K)%N) by (subst K; lia).
  assert (HJ : (J < K)%N) by (subst J K; lia).
  assert (HB : (0 < B)%N) by (subst B; reflexivity).
  set (m := ((J * B + K - 1) / K)%N).
  assert (Hle : (K * m <= J * B + K - 1)%N) by (apply N.Div0.mul_div_le).
  assert (Hgt : (J * B + K - 1 < K * N.succ m)%N) by (apply N.mul_succ_div_gt; lia).
  assert (Hm : (m < B)%N) by nia.
  unfold random_significand, random_scale. fold B.
  rewrite (N.mod_small m B Hm), (N.div_small m B Hm).
  change (53 + 0 mod 1022)%N with 53%N. fold B.
  assert (Hlo : (J * B <= m * K)%N) by nia.
  assert (Hhi : (m * K < J * B + K)%N) by nia.
  assert (Hround : (J * B <= round_to_double (m * K) /\ round_to_double (m * K) < (J + 1) * B)%N).
  { destruct (N.lt_ge_cases (m * K) B) as [Hsmall|Hbig].
    - rewrite round_to_double_small by exact Hsmall. nia.
    - destruct (round_to_double_bounds (m * K) Hbig) as (Hg & Hdown & Hup).
      set (k := (N.log2 (m * K) - 52)%N) in *. set (g := (2 ^ k)%N) in *.
      assert (Hpos : (0 < m * K)%N) by lia.
      assert (H85 : (m * K < 2 ^ 85)%N).
      { assert (2 ^ 85 = 2 ^ 32 * B)%N by reflexivity. nia. }
      assert (Hlog : (N.log2 (m * K) < 85)%N) by (apply N.log2_lt_pow2; assumption).
      assert (Hk : (k <= 32)%N) by (subst k; lia).
      assert (Hg32 : (g <= 2 ^ 32)%N) by (subst g; apply N.pow_le_mono_r; [discriminate|exact Hk]).
      assert (Hgpos : (0 < g)%N) by (subst g; apply N.neq_0_lt_0, N.pow_nonzero; discriminate).
      assert (HBg : (B = 2 ^ (53 - k) * g)%N).
      { subst B g. rewrite <- N.pow_add_r. f_equal. lia. }
      split.
      + assert (Hc : (J * 2 ^ (53 - k) <= m * K / g)%N).
        { apply N.div_le_lower_bound; [lia|]. nia. }
        nia.
      + assert (Hgap : (3 * 2 ^ 32 < 2 * B)%N) by (vm_compute; reflexivity).
        nia. }
  assert (Hq : (round_to_double (m * K) / B = J)%N).
  { symmetry.
    apply (N.div_unique (round_to_double (m * K)) B J (round_to_double (m * K) - B * J)); nia. }
  rewrite Hq. subst J. apply Nat2N.id.
Qed.

Section Reachability.
Context {T : Type}.
Implicit Types (pre suf target : list T).

Lemma shuffle_loop_reaches i : forall pre suf target,
  length pre = S i ->
  (N.of_nat (S i) <= 2 ^ 32)%N ->
  target ≡ₚ pre ->
  exists src, fst (shuffle_loop i (pre ++ suf) src) = target ++ suf.
Proof.
  induction i as [|i IH]; intros pre suf target Hlen Hsize Hperm.
  - exists (fun _ => 0%N). simpl.
    destruct pre as [|x [|? ?]]; simpl in Hlen; try lia.
    apply Permutation_singleton_r in Hperm. subst target. reflexivity.
  - assert (Hlt : (length target = S (S i))%nat) by (rewrite Hperm; exact Hlen).
    destruct target as [|t0 target0] using rev_ind; [simpl in Hlt; lia|].
    clear IHtarget0. rename target0 into target', t0 into t.
    assert (Hin : t ∈ pre).
    { rewrite <- Hperm. apply elem_of_app. right. apply list_elem_of_here. }
    apply list_elem_of_lookup_1 in Hin as [j Hj].
    assert (Hjlt : (j < S (S i))%nat) by (rewrite <- Hlen; eapply lookup_lt_Some; exact Hj).
    destruct (lookup_lt_is_Some_2 pre (S i)) as [y Hy]; [lia|].
    set (arr := pre ++ suf).
    assert (Haj : arr !! j = Some t) by (apply lookup_app_l_Some; exact Hj).
    assert (Hay : arr !! S i = Some y) by (apply lookup_app_l_Some; exact Hy).
    set (res := swap arr (S i) j).
    assert (Hres : res = <[j:=y]> (<[S i:=t]> arr)).
    { unfold res, swap. rewrite Haj, Hay. reflexivity. }
    assert (Hlenarr : (S (S i) <= length arr)%nat).
    { unfold arr. rewrite length_app. lia. }
    assert (Hlast : res !! S i = Some t).
    { rewrite Hres. destruct (decide (j = S i)) as [->|Hne].
      - rewrite list_lookup_insert_eq by (rewrite length_insert; lia).
        congruence.
      - rewrite list_lookup_insert_ne by exact Hne.
        apply list_lookup_insert_eq. lia. }
    assert (Hdrop : drop (S i) res = t :: suf).
    { rewrite (drop_S res t (S i) Hlast). f_equal.
      rewrite Hres, !drop_insert_lt by lia.
      unfold arr. rewrite <- Hlen. apply drop_app_length. }
    assert (Hsplit : res = take (S i) res ++ t :: suf).
    { rewrite <- Hdrop. symmetry. apply take_drop. }
    assert (Hpre' : take (S i) res ≡ₚ target').
    { apply (Permutation_app_inv_r [t]).
      rewrite Hperm.
      apply (Permutation_app_inv_r suf).
      rewrite <- (assoc_L (++)). simpl. rewrite <- Hsplit.
      apply swap_Permutation. }
    assert (Hlenpre' : length (take (S i) res) = S i).
    { rewrite length_take. rewrite Hres, !length_insert. lia. }
    destruct (IH (take (S i) res) (t :: suf) target' Hlenpre') as [src' Hsrc'];
      [lia|symmetry; exact Hpre'|].
    exists (draw_then (draw_for (S i + 1) j) src').
    change (fst (shuffle_loop i
                   (swap arr (S i)
                      (fst (random_index (S i + 1) (draw_then (draw_for (S i + 1) j) src'))))
                   src')
            = (target' ++ [t]) ++ suf).
    rewrite draw_for_spec by lia.
    fold res. rewrite Hsplit, Hsrc'. rewrite <- (assoc_L (++)). reflexivity.
Qed.
End Reachability.

(** Every arrangement of the input is a possible result of [shuffleArray]:
    for an array of at most 2^32 elements (more than any array can have)
    and any permutation of it there is a sequence of doubles returned by
    [Math.random()] for which the loop, run in double arithmetic, returns
    that permutation. *)
Theorem shuffleArray_reaches_every_permutation {T : Type} (array target : list T)
    (Hperm : target ≡ₚ array)
    (Hsize : (N.of_nat (length array) <= 2 ^ 32)%N) :
  exists src, fst (shuffleArray array src) = target.
Proof.
  unfold shuffleArray.
  destruct array as [|x array'].
  - apply Permutation_nil_r in Hperm. subst target. exists (fun _ => 0%N). reflexivity.
  - destruct (shuffle_loop_reaches (length array') (x :: array') [] target) as [src Hsrc].
    + reflexivity.
    + exact Hsize.
    + exact Hperm.
    + exists src. rewrite !app_nil_r in Hsrc.
      replace (length (x :: array') - 1)%nat with (length array') by (simpl; lia).
      exact Hsrc.
Qed.

Lemma shuffleArray_reaches_every_permutation_witness :
  [3; 1; 2]%nat ≡ₚ [1; 2; 3]%nat /\
  (N.of_nat (length [1; 2; 3]%nat) <= 2 ^ 32)%N /\
  exists src, fst (shuffleArray [1; 2; 3]%nat src) = [3; 1; 2]%nat.
Proof.
  assert (Hperm : [3; 1; 2]%nat ≡ₚ [1; 2; 3]%nat).
  { change ([3]%nat ++ [1; 2]%nat ≡ₚ [1; 2]%nat ++ [3]%nat). apply Permutation_app_comm. }
  assert (Hsize : (N.of_nat (length [1; 2; 3]%nat) <= 2 ^ 32)%N) by (vm_compute; discriminate).
  split; [exact Hperm|]. split; [exact Hsize|].
  exact (shuffleArray_reaches_every_permutation [1; 2; 3]%nat [3; 1; 2]%nat Hperm Hsize).
Defined.

(** ** The distractors *)

Lemma generatePlausibleDistractors_eq correctAnswer entities difficulty :
  generatePlausibleDistractors correctAnswer entities difficulty
  = entity_distractors entities
    ++ drop (length (entity_distractors entities)) (difficultyDistractors difficulty).
Proof.
  unfold generatePlausibleDistractors, entity_distractors.
  destruct (relationships entities) as [|[t1 t2] ?], (structures entities), (concepts entities),
    difficulty; reflexivity.
Qed.

(** The distractor list starts with the entity-backed distractors, in the
    order relationship, structure, concept: one sentence built from the
    first relationship pair, one from the first structure and one from the
    first concept, each present exactly when its collection is not empty.
    Slot [k] that they leave free is filled with entry [k] of the
    difficulty's table, so the first table entries are passed over when
    entity-backed distractors exist. *)
Theorem generatePlausibleDistractors_layout correctAnswer entities difficulty :
  let from_relationship :=
    match head (relationships entities) with
    | Some (term1, term2) => [term2 +:+ " is responsible for " +:+ term1 +:+ "'s function"]
    | None => []
    end in
  let from_structure :=
    match head (structures entities) with
    | Some structure => [structure +:+ " is involved in a different process"]
    | None => []
    end in
  let from_concept :=
    match head (concepts entities) with
    | Some concept => [concept +:+ " operates independently of other processes"]
    | None => []
    end in
  let backed := from_relationship ++ from_structure ++ from_concept in
  let table :=
    match difficulty with
    | easy => ["The process occurs in reverse"; "No interaction takes place";
               "The structure is inactive"]
    | medium => ["The relationship is indirect"; "Multiple steps are skipped";
                 "The effect is temporary"]
    | hard => ["The mechanism is substrate-independent"; "Regulation occurs at a different level";
               "The pathway is non-linear"]
    end in
  generatePlausibleDistractors correctAnswer entities difficulty
  = backed ++ drop (length backed) table.
Proof.
  cbv zeta. unfold generatePlausibleDistractors, entity_distractors.
  destruct (relationships entities) as [|[t1 t2] ?], (structures entities), (concepts entities),
    difficulty; reflexivity.
Qed.

Lemma rev_app_app (a b acc : string) :
  String.rev_app (a +:+ b) acc = String.rev_app b (String.rev_app a acc).
Proof.
  revert acc. induction a as [|c a IH]; intros acc; [reflexivity|].
  change (String.rev_app (a +:+ b) (String c acc) = String.rev_app b (String.rev_app a (String c acc))).
  apply IH.
Qed.

Lemma last_two_relationship (term1 term2 : string) :
  last_two (term2 +:+ " is responsible for " +:+ term1 +:+ "'s function") = "no".
Proof. unfold last_two, String.rev. rewrite !rev_app_app. reflexivity. Qed.

Lemma last_two_structure (structure : string) :
  last_two (structure +:+ " is involved in a different process") = "ss".
Proof. unfold last_two, String.rev. rewrite !rev_app_app. reflexivity. Qed.

Lemma last_two_concept (concept : string) :
  last_two (concept +:+ " operates independently of other processes") = "se".
Proof. unfold last_two, String.rev. rewrite !rev_app_app. reflexivity. Qed.

(** The three distractors are pairwise different strings, for every entity
    set and difficulty: the three entity templates and the nine table
    entries all end differently. *)
Theorem generatePlausibleDistractors_distinct correctAnswer entities difficulty :
  NoDup (generatePlausibleDistractors correctAnswer entities difficulty).
Proof.
  apply (NoDup_fmap_1 last_two).
  rewrite generatePlausibleDistractors_eq. unfold entity_distractors.
  destruct (relationships entities) as [|[t1 t2] ?], (structures entities), (concepts entities),
    difficulty;
    cbn [app length drop difficultyDistractors fmap list_fmap];
    rewrite ?last_two_relationship, ?last_two_structure, ?last_two_concept;
    refine (bool_decide_unpack _ _); vm_compute; exact I.
Qed.

(** ** What [extractEntities] captures *)

Lemma string_length_app (a b : string) :
  String.length (a +:+ b) = (String.length a + String.length b)%nat.
Proof.
  induction a as [|c a IH]; [reflexivity|].
  change (S (String.length (a +:+ b)) = S (String.length a + String.length b)).
  rewrite IH. reflexivity.
Qed.

Lemma take_string_app (pre rest : string) :
  take_string (String.length (pre +:+ rest) - String.length rest) (pre +:+ rest) = pre.
Proof.
  rewrite string_length_app.
  replace (String.length pre + String.length rest - String.length rest)%nat
    with (String.length pre) by lia.
  induction pre as [|c pre IH]; [destruct rest; reflexivity|].
  change (String c (take_string (String.length pre) (pre +:+ rest)) = String c pre).
  rewrite IH. reflexivity.
Qed.

Section CaptureFacts.
Context {R : Type}.
Variable i : bool.

Lemma plus_match_consumes cls s cap (k : Cont) (res : R) :
  plus_match i cls s cap k = Some res ->
  exists pre rest, s = pre +:+ rest /\ pre <> "" /\
                   string_forallb (class_matches i cls) pre = true /\
                   k rest cap = Some res.
Proof.
  induction s as [|c s IH]; simpl; [discriminate|].
  destruct (class_matches i cls c) eqn:Hc; [|discriminate].
  destruct (plus_match i cls s cap k) as [r|] eqn:Hrec.
  - intros [= <-]. destruct (IH eq_refl) as (pre & rest & -> & _ & Hall & Hk).
    exists (String c pre), rest. repeat split; [discriminate| |exact Hk].
    simpl. rewrite Hc. exact Hall.
  - intros Hk. exists (String c ""), s. repeat split; [discriminate| |exact Hk].
    simpl. rewrite Hc. reflexivity.
Qed.

Lemma rmatch_captures_class cls r :
  captures_class cls r ->
  forall s cap (k : Cont) (res : R),
    rmatch i r s cap k = Some res ->
    exists rest pre, pre <> "" /\ string_forallb (class_matches i cls) pre = true /\
                     k rest (Some pre) = Some res.
Proof.
  induction 1 as [|r1 r2 _ IH]; intros s cap k res Hm; simpl in Hm.
  - apply plus_match_consumes in Hm as (pre & rest & -> & Hne & Hall & Hk).
    rewrite take_string_app in Hk. eauto.
  - apply rmatch_calls in Hm as (s1 & cap1 & Hm). eapply IH. exact Hm.
Qed.
End CaptureFacts.

Lemma match_at_captures_class re cls s n cap :
  captures_class cls (source re) ->
  match_at re s = Some (n, cap) ->
  exists pre, cap = Some pre /\ pre <> "" /\
              string_forallb (class_matches (ignoreCase re) cls) pre = true.
Proof.
  intros Hshape Hm. unfold match_at in Hm.
  eapply rmatch_captures_class in Hm as (rest & pre & Hne & Hall & Hk); [|exact Hshape].
  injection Hk as _ <-. eauto.
Qed.

Lemma matchAll_Forall (P : option string -> Prop) re s :
  (forall s1 n cap, match_at re s1 = Some (n, cap) -> P cap) ->
  Forall P (matchAll re s).
Proof.
  intros HP. unfold matchAll. generalize 0%nat as skip.
  induction s as [|c s IH]; intros skip; cbn [matchAll_go].
  - destruct skip; [|constructor].
    destruct (match_at re "") as [[n cap]|] eqn:Hm; [|constructor].
    apply Forall_singleton. eapply HP. exact Hm.
  - destruct skip as [|skip]; [|apply IH].
    destruct (match_at re (String c s)) as [[n cap]|] eqn:Hm; [|apply IH].
    constructor; [|apply IH]. eapply HP. exact Hm.
Qed.

Lemma exec_captures re s m (P : option string -> Prop) :
  (forall s1 n cap, match_at re s1 = Some (n, cap) -> P cap) ->
  exec re s = Some m -> P m.
Proof.
  intros HP. induction s as [|c s IH]; cbn [exec];
    destruct (match_at re _) as [[n cap]|] eqn:Hm.
  - intros [= <-]. eapply HP. exact Hm.
  - discriminate.
  - intros [= <-]. eapply HP. exact Hm.
  - exact IH.
Qed.

(** *** Substrings keep a property of all characters *)

Section Forallb.
Variable P : ascii -> bool.

Lemma string_forallb_rev_app (s acc : string) :
  string_forallb P (String.rev_app s acc) = string_forallb P s && string_forallb P acc.
Proof.
  revert acc. induction s as [|c s IH]; intros acc; simpl; [reflexivity|].
  rewrite IH. simpl. destruct (P c), (string_forallb P s); reflexivity.
Qed.

Lemma string_forallb_rev (s : string) :
  string_forallb P (String.rev s) = string_forallb P s.
Proof. unfold String.rev. rewrite string_forallb_rev_app. simpl. apply andb_true_r. Qed.

Lemma string_forallb_trimStart (s : string) :
  string_forallb P s = true -> string_forallb P (trimStart s) = true.
Proof.
  induction s as [|c s IH]; simpl; [reflexivity|].
  intros [Hc Hs]%andb_true_iff.
  destruct (isWhiteSpace c); [apply IH; exact Hs|].
  simpl. rewrite Hc. exact Hs.
Qed.

Lemma string_forallb_trim (s : string) :
  string_forallb P s = true -> string_forallb P (trim s) = true.
Proof.
  intros Hs. unfold trim, trimEnd.
  rewrite string_forallb_rev. apply string_forallb_trimStart.
  rewrite string_forallb_rev. apply string_forallb_trimStart. exact Hs.
Qed.

Lemma split_go_forallb re s : forall tok skip,
  string_forallb P s = true -> string_forallb P tok = true ->
  Forall (fun piece => string_forallb P piece = true) (split_go re s tok skip).
Proof.
  induction s as [|c s IH]; intros tok skip Hs Htok; cbn [split_go].
  - apply Forall_singleton. rewrite string_forallb_rev. exact Htok.
  - simpl in Hs. apply andb_true_iff in Hs as [Hc Hs].
    assert (Hctok : string_forallb P (String c tok) = true) by (simpl; rewrite Hc; exact Htok).
    assert (Hrev : string_forallb P (String.rev tok) = true)
      by (rewrite string_forallb_rev; exact Htok).
    destruct skip as [|skip]; [|apply IH; assumption].
    destruct (match_at re (String c s)) as [[[|n] cap]|].
    + destruct tok as [|c1 tok1].
      * apply IH; assumption.
      * constructor; [exact Hrev|]. apply IH; [exact Hs|]. simpl. rewrite Hc. reflexivity.
    + constructor; [exact Hrev|]. apply IH; [exact Hs|reflexivity].
    + apply IH; assumption.
Qed.

Lemma split_forallb re s :
  string_forallb P s = true ->
  Forall (fun piece => string_forallb P piece = true) (split re s).
Proof.
  intros Hs. unfold split. destruct s as [|c s].
  - destruct (match_at re ""); [constructor|]. apply Forall_singleton. reflexivity.
  - apply split_go_forallb; [exact Hs|reflexivity].
Qed.
End Forallb.

Lemma class_lower_or_space (c : ascii) :
  class_matches true cls_lower_or_space c = letter_or_space c.
Proof. destruct c as [[] [] [] [] [] [] [] []]; vm_compute; reflexivity. Qed.

Lemma class_not_comma_dot (c : ascii) :
  class_matches true cls_not_comma_dot c = not_comma_dot c.
Proof. destruct c as [[] [] [] [] [] [] [] []]; vm_compute; reflexivity. Qed.

Lemma string_forallb_ext (P Q : ascii -> bool) (s : string) :
  (forall c, P c = Q c) -> string_forallb P s = string_forallb Q s.
Proof.
  intros HPQ. induction s as [|c s IH]; simpl; [reflexivity|]. rewrite HPQ, IH. reflexivity.
Qed.

Lemma phrase_letters re text phrase :
  ignoreCase re = true ->
  captures_class cls_lower_or_space (source re) ->
  phrase ∈ Set_from (map (fun m => trim (group1 m)) (matchAll re text)) ->
  string_forallb letter_or_space phrase = true.
Proof.
  intros Hi Hshape Hin.
  apply Set_from_elem, list_elem_of_fmap in Hin as (m & -> & Hm).
  assert (HF : Forall (fun cap => string_forallb letter_or_space (group1 cap) = true)
                 (matchAll re text)).
  { apply matchAll_Forall. intros s1 n cap Hat.
    destruct (match_at_captures_class re cls_lower_or_space s1 n cap Hshape Hat)
      as (pre & -> & _ & Hall).
    simpl. rewrite Hi in Hall.
    rewrite <- (string_forallb_ext _ _ pre class_lower_or_space). exact Hall. }
  apply string_forallb_trim.
  exact (proj1 (Forall_forall _ _) HF m Hm).
Qed.

(** Every phrase of [processes], [structures] and [concepts] is made of
    ASCII letters and white space only (no digit, no punctuation), and
    neither starts nor ends with white space. *)
Theorem extractEntities_phrases_are_words (text phrase : string)
    (Hin : phrase ∈ processes (extractEntities text) \/
           phrase ∈ structures (extractEntities text) \/
           phrase ∈ concepts (extractEntities text)) :
  string_forallb letter_or_space phrase = true /\
  head_ok phrase = true /\ last_ok phrase = true.
Proof.
  split.
  - destruct Hin as [H|[H|H]];
      eapply phrase_letters in H; try exact H; try reflexivity;
      apply captures_seq, captures_group.
  - assert (Htrim : exists x, phrase = trim x).
    { destruct Hin as [H|[H|H]];
        apply Set_from_elem, list_elem_of_fmap in H as (m & -> & _); eauto. }
    destruct Htrim as [x ->]. apply trim_ends_ok.
Qed.

Lemma extractEntities_phrases_are_words_witness :
  let text := "The theory of plate tectonics (1968) explains a lot." in
  "plate tectonics" ∈ concepts (extractEntities text) /\
  string_forallb letter_or_space "plate tectonics" = true.
Proof.
  intros text.
  assert (Hin : "plate tectonics" ∈ concepts (extractEntities text)).
  { vm_compute. apply list_elem_of_here. }
  split; [exact Hin|].
  exact (proj1 (extractEntities_phrases_are_words text "plate tectonics" (or_intror (or_intror Hin)))).
Defined.

Lemma comparison_capture sentence m :
  String_match re_comparison sentence = Some m ->
  string_forallb not_comma_dot (group1 m) = true.
Proof.
  apply (exec_captures re_comparison sentence m
           (fun cap => string_forallb not_comma_dot (group1 cap) = true)).
  intros s1 n cap Hat.
  destruct (match_at_captures_class re_comparison cls_not_comma_dot s1 n cap) as (pre & -> & _ & Hall);
    [apply captures_seq, captures_seq, captures_group|exact Hat|].
  simpl. rewrite <- (string_forallb_ext _ _ pre class_not_comma_dot). exact Hall.
Qed.

Lemma extract_relationship_terms (P : string * string -> Prop) relationships sentence :
  (forall t0 t1, string_forallb not_comma_dot t0 = true ->
                 string_forallb not_comma_dot t1 = true -> P (trim t0, trim t1)) ->
  Forall P relationships ->
  Forall P (extract_relationship relationships sentence) /\
  (length (extract_relationship relationships sentence) <= S (length relationships))%nat.
Proof.
  intros HP Hacc. unfold extract_relationship.
  destruct (String_match re_comparison sentence) as [m|] eqn:Hm; [|split; [exact Hacc|lia]].
  pose proof (split_forallb not_comma_dot re_and_or (group1 m) (comparison_capture sentence m Hm))
    as Hpieces.
  destruct (split re_and_or (group1 m)) as [|t0 [|t1 [|t2 rest]]]; try (split; [exact Hacc|lia]).
  split; [|rewrite length_app; simpl; lia].
  apply Forall_app. split; [exact Hacc|].
  apply Forall_singleton.
  apply Forall_cons in Hpieces as [H0 Hpieces]. apply Forall_cons in Hpieces as [H1 _].
  apply HP; assumption.
Qed.

Lemma foldl_extract_relationship (P : string * string -> Prop) sentences :
  (forall t0 t1, string_forallb not_comma_dot t0 = true ->
                 string_forallb not_comma_dot t1 = true -> P (trim t0, trim t1)) ->
  forall relationships,
    Forall P relationships ->
    Forall P (foldl extract_relationship relationships sentences) /\
    (length (foldl extract_relationship relationships sentences)
     <= length relationships + length sentences)%nat.
Proof.
  intros HP. induction sentences as [|sentence rest IH]; intros relationships Hacc; simpl.
  - split; [exact Hacc|lia].
  - destruct (extract_relationship_terms P relationships sentence HP Hacc) as [Hstep Hlen].
    destruct (IH _ Hstep) as [Hall Hlen']. split; [exact Hall|lia].
Qed.

(** Both terms of every relationship pair are trimmed and contain neither
    a comma nor a full stop; and at most one pair is recorded per sentence
    of the text. *)
Theorem extractEntities_relationship_terms (text : string) :
  Forall (fun pair =>
            trim (fst pair) = fst pair /\ trim (snd pair) = snd pair /\
            string_forallb not_comma_dot (fst pair) = true /\
            string_forallb not_comma_dot (snd pair) = true)
    (relationships (extractEntities text)) /\
  (length (relationships (extractEntities text))
   <= length (filter (fun s => truthy s = true) (map trim (split re_sentence_end text))))%nat.
Proof.
  cbn [extractEntities relationships].
  apply (foldl_extract_relationship
           (fun pair =>
              trim (fst pair) = fst pair /\ trim (snd pair) = snd pair /\
              string_forallb not_comma_dot (fst pair) = true /\
              string_forallb not_comma_dot (snd pair) = true)).
  - intros t0 t1 H0 H1. simpl.
    repeat split; try apply trim_idempotent; apply string_forallb_trim; assumption.
  - constructor.
Qed.

(** ** The synthesizer's answer *)

Lemma find_or_empty_cases (p : string -> bool) (array : list string) :
  find_or_empty p array = "" \/
  (find_or_empty p array ∈ array /\ p (find_or_empty p array) = true).
Proof.
  induction array as [|s rest IH]; simpl; [left; reflexivity|].
  destruct (p s) eqn:Hp.
  - right. split; [apply list_elem_of_here|exact Hp].
  - destruct IH as [IH|[Hin Hq]]; [left; exact IH|right].
    split; [apply list_elem_of_further; exact Hin|exact Hq].
Qed.

Lemma generateContextualQuestion_answer_form ty entities text paragraphNumber src :
  exists pred,
    Contextual.correctAnswer
      (fst (generateContextualQuestion (Some ty) entities text paragraphNumber src))
    = trim (find_or_empty pred (paragraph_sentences (select_paragraph text paragraphNumber))).
Proof.
  destruct ty; unfold generateContextualQuestion, bind, ret;
    try (destruct (random_element _ src) as [x src1]); eexists; reflexivity.
Qed.

Lemma generateContextualQuestion_question_truthy ty entities text paragraphNumber src :
  truthy (Contextual.question
            (fst (generateContextualQuestion (Some ty) entities text paragraphNumber src))) = true.
Proof.
  destruct ty; unfold generateContextualQuestion, bind, ret;
    try (destruct (random_element _ src) as [x src1]); reflexivity.
Qed.

(** For each of the five question types the question text is never blank,
    the answer is trimmed, and a non-blank answer is the trimmed text of a
    sentence of the selected paragraph. *)
Theorem generateContextualQuestion_answer_is_sentence ty entities text paragraphNumber src :
  let g := fst (generateContextualQuestion (Some ty) entities text paragraphNumber src) in
  Contextual.question g <> "" /\
  trim (Contextual.correctAnswer g) = Contextual.correctAnswer g /\
  (Contextual.correctAnswer g <> "" ->
   exists s, s ∈ paragraph_sentences (select_paragraph text paragraphNumber) /\
             Contextual.correctAnswer g = trim s).
Proof.
  intros g. subst g.
  destruct (generateContextualQuestion_answer_form ty entities text paragraphNumber src)
    as [pred Ha].
  split; [apply truthy_true, generateContextualQuestion_question_truthy|].
  rewrite Ha. split; [apply trim_idempotent|].
  intros Hne.
  destruct (find_or_empty_cases pred (paragraph_sentences (select_paragraph text paragraphNumber)))
    as [Hblank|[Hin _]].
  - rewrite Hblank in Hne. contradiction Hne. reflexivity.
  - eexists. split; [exact Hin|reflexivity].
Qed.

(** ** Paragraph selection *)

Lemma lit_match_startsWith (pat s : string) :
  startsWith s pat = false -> lit_match false pat s = None.
Proof.
  revert s. induction pat as [|p pat IH]; intros [|c s]; simpl; try discriminate; try reflexivity.
  destruct (Ascii.eqb p c); [apply IH|reflexivity].
Qed.

Lemma split_go_no_separator (sep s : string) : forall tok,
  includes s sep = false ->
  split_go {| source := RWords [sep]; ignoreCase := false |} s tok 0 = [String.rev_app tok s].
Proof.
  induction s as [|c s IH]; intros tok Hinc; [reflexivity|].
  cbn [includes] in Hinc. apply orb_false_iff in Hinc as [Hstart Hinc].
  cbn [split_go]. unfold match_at. cbn [source ignoreCase rmatch words_match].
  rewrite (lit_match_startsWith sep (String c s) Hstart).
  apply IH. exact Hinc.
Qed.

Lemma select_paragraph_single (text : string) :
  includes text (String LF (String LF "")) = false ->
  forall paragraphNumber, select_paragraph text paragraphNumber = text.
Proof.
  intros Hinc paragraphNumber. unfold select_paragraph.
  assert (Hsplit : split re_blank_line text = [text]).
  { unfold split. destruct text as [|c text]; [reflexivity|].
    unfold re_blank_line. rewrite split_go_no_separator by exact Hinc. reflexivity. }
  rewrite Hsplit.
  destruct paragraphNumber as [|[|k]]; simpl; [reflexivity| |reflexivity].
  destruct (truthy text); reflexivity.
Qed.

(** In a text without a blank line every paragraph number selects the whole
    text: the question and the answer do not depend on the paragraph
    number, while [sourceReference] still names it, also when there is no
    such paragraph. *)
Theorem single_paragraph_text_ignores_paragraph_number (text : string)
    (Hsingle : includes text (String LF (String LF "")) = false) :
  (forall paragraphNumber, select_paragraph text paragraphNumber = text) /\
  (forall ty entities paragraphNumber src,
      let g := fst (generateContextualQuestion (Some ty) entities text paragraphNumber src) in
      let g1 := fst (generateContextualQuestion (Some ty) entities text 1 src) in
      Contextual.question g = Contextual.question g1 /\
      Contextual.correctAnswer g = Contextual.correctAnswer g1 /\
      Contextual.sourceReference g = "Paragraph " +:+ Number_toString paragraphNumber).
Proof.
  pose proof (select_paragraph_single text Hsingle) as Hsel.
  split; [exact Hsel|].
  intros ty entities paragraphNumber src g g1. subst g g1.
  split; [|split; [|apply generateContextualQuestion_sourceReference]];
    destruct ty; unfold generateContextualQuestion; rewrite !Hsel; reflexivity.
Qed.

Lemma single_paragraph_text_ignores_paragraph_number_witness :
  let text := "Heat causes expansion. The law of gravity holds." in
  includes text (String LF (String LF "")) = false /\
  select_paragraph text 4 = text.
Proof.
  intros text.
  assert (Hsingle : includes text (String LF (String LF "")) = false) by reflexivity.
  split; [exact Hsingle|].
  exact (proj1 (single_paragraph_text_ignores_paragraph_number text Hsingle) 4%nat).
Defined.

(** ** Which slots produce a question *)

Lemma slot_type_defined (i : nat) : exists ty, slot_type i = Some ty.
Proof.
  apply (lookup_lt_is_Some_2 questionTypes). apply Nat.mod_upper_bound. discriminate.
Qed.

(** A slot is skipped exactly when the synthesizer's answer is blank (the
    question text never is); otherwise it appends one question, numbered
    after the slot and carrying the synthesizer's question text. *)
Theorem generate_slot_pushes_iff_answer
    includeExplanations entities text difficulty (i : nat) questions src :
  let g := fst (generateContextualQuestion (slot_type i) entities text (slot_paragraph i) src) in
  let out := fst (generate_slot includeExplanations entities text difficulty i questions src) in
  (Contextual.correctAnswer g = "" -> out = questions) /\
  (Contextual.correctAnswer g <> "" ->
   exists q, out = questions ++ [q] /\
             MCQuestion.id q = "q" +:+ Number_toString (i + 1) /\
             MCQuestion.question q = Contextual.question g).
Proof.
  intros g out. subst g out.
  destruct (slot_type_defined i) as [ty Hty].
  pose proof (generateContextualQuestion_question_truthy ty entities text (slot_paragraph i) src)
    as Hq.
  unfold generate_slot, bind. rewrite Hty in *.
  destruct (generateContextualQuestion (Some ty) entities text (slot_paragraph i) src)
    as [g src1].
  cbn [fst] in *. rewrite Hq. cbn [negb orb].
  split.
  - intros ->. reflexivity.
  - intros Hne. apply truthy_true in Hne. rewrite Hne. cbn [negb].
    destruct (shuffleArray _ src1) as [options src2].
    eexists. split; [reflexivity|]. split; reflexivity.
Qed.

Lemma toLowerCase_char_space (c : ascii) :
  isWhiteSpace (toLowerCase_char c) = isWhiteSpace c.
Proof. destruct c as [[] [] [] [] [] [] [] []]; reflexivity. Qed.

Lemma has_nonspace_toLowerCase (s : string) :
  has_nonspace (toLowerCase s) = has_nonspace s.
Proof.
  induction s as [|c s IH]; simpl; [reflexivity|].
  rewrite toLowerCase_char_space, IH. reflexivity.
Qed.

Lemma includes_undefined_has_nonspace (s : string) :
  includes s "undefined" = true -> has_nonspace s = true.
Proof.
  induction s as [|c s IH]; [discriminate|].
  cbn [includes]. intros [Hstart|Hrest]%orb_true_iff.
  - cbn [startsWith] in Hstart. destruct (Ascii.eqb _ c) eqn:Hc; [|discriminate].
    apply Ascii.eqb_eq in Hc. subst c. reflexivity.
  - simpl. rewrite (IH Hrest). apply orb_true_r.
Qed.

Lemma generateContextualQuestion_undefined_answer ty entities text paragraphNumber src :
  required_collection_empty ty entities ->
  Contextual.correctAnswer
    (fst (generateContextualQuestion (Some ty) entities text paragraphNumber src))
  = trim (find_or_empty (fun s => includes (toLowerCase s) "undefined")
            (paragraph_sentences (select_paragraph text paragraphNumber))).
Proof.
  intros Hempty.
  destruct ty; simpl in Hempty; try contradiction;
    unfold generateContextualQuestion; rewrite Hempty; try reflexivity.
  cbn. f_equal. apply find_or_empty_ext. intros s. apply andb_diag.
Qed.

Lemma generateContextualQuestion_undefined_question ty entities text paragraphNumber src :
  required_collection_empty ty entities ->
  Contextual.question
    (fst (generateContextualQuestion (Some ty) entities text paragraphNumber src))
  = match ty with
    | QDefinition => "What is undefined?"
    | QComparison => "How does undefined differ from undefined?"
    | QSequencing => "What is the correct sequence in undefined?"
    | QScenario => "Which scenario best demonstrates undefined?"
    | QCauseEffect => ""
    end.
Proof.
  intros Hempty.
  destruct ty; simpl in Hempty; try contradiction;
    unfold generateContextualQuestion; rewrite Hempty; reflexivity.
Qed.

Lemma generate_slot_pushes includeExplanations entities text difficulty (i : nat) questions src :
  Contextual.correctAnswer
    (fst (generateContextualQuestion (slot_type i) entities text (slot_paragraph i) src)) <> "" ->
  exists q,
    fst (generate_slot includeExplanations entities text difficulty i questions src)
    = questions ++ [q] /\
    MCQuestion.question q
    = Contextual.question
        (fst (generateContextualQuestion (slot_type i) entities text (slot_paragraph i) src)) /\
    exists o, o ∈ MCQuestion.options q /\ MCQOption.isCorrect o = true /\
              MCQOption.text o
              = Contextual.correctAnswer
                  (fst (generateContextualQuestion (slot_type i) entities text
                          (slot_paragraph i) src)).
Proof.
  destruct (slot_type_defined i) as [ty Hty].
  pose proof (generateContextualQuestion_question_truthy ty entities text (slot_paragraph i) src)
    as Hq.
  unfold generate_slot, bind. rewrite Hty in *.
  destruct (generateContextualQuestion (Some ty) entities text (slot_paragraph i) src)
    as [g src1].
  cbn [fst] in *. rewrite Hq. cbn [negb orb].
  intros Hne. apply truthy_true in Hne. rewrite Hne. cbn [negb].
  pose proof (shuffleArray_Permutation
                (slot_options i (Contextual.correctAnswer g)
                   (generatePlausibleDistractors (Contextual.correctAnswer g) entities difficulty))
                src1) as HP.
  destruct (shuffleArray _ src1) as [options src2]. cbn [fst] in *.
  eexists. split; [reflexivity|]. split; [reflexivity|].
  cbn [MCQuestion.options].
  exists {| MCQOption.id := "q" +:+ Number_toString (i + 1) +:+ "_a";
            MCQOption.text := Contextual.correctAnswer g;
            MCQOption.isCorrect := true |}.
  split; [|split; reflexivity].
  rewrite HP. apply list_elem_of_here.
Qed.

(** When the collection a question type draws from is empty and a sentence
    of the selected paragraph contains the text [undefined] (in any case),
    the synthesizer takes that word for the missing term: the question is
    the type's phrase around the word [undefined], and the answer is the
    trimmed text of a sentence of the paragraph that contains [undefined],
    hence not blank.  A slot of the orchestrator with this type and
    paragraph is therefore not skipped: it appends a question with that
    question text, whose correct option is that answer. *)
Theorem undefined_is_taken_for_the_missing_term
    (ty : QuestionType) (entities : TextEntities) (text : string)
    (paragraphNumber : nat) (src : RandomSource) (s : string)
    (Hempty : required_collection_empty ty entities)
    (Hin : s ∈ paragraph_sentences (select_paragraph text paragraphNumber))
    (Hword : includes (toLowerCase s) "undefined" = true) :
  let g := fst (generateContextualQuestion (Some ty) entities text paragraphNumber src) in
  (exists found,
      found ∈ paragraph_sentences (select_paragraph text paragraphNumber) /\
      includes (toLowerCase found) "undefined" = true /\
      Contextual.correctAnswer g = trim found) /\
  Contextual.correctAnswer g <> "" /\
  Contextual.question g
  = match ty with
    | QDefinition => "What is undefined?"
    | QComparison => "How does undefined differ from undefined?"
    | QSequencing => "What is the correct sequence in undefined?"
    | QScenario => "Which scenario best demonstrates undefined?"
    | QCauseEffect => ""
    end /\
  Contextual.question g <> "" /\
  (forall includeExplanations difficulty (i : nat) questions,
      slot_type i = Some ty -> slot_paragraph i = paragraphNumber ->
      exists q,
        fst (generate_slot includeExplanations entities text difficulty i questions src)
        = questions ++ [q] /\
        MCQuestion.question q = Contextual.question g /\
        exists o, o ∈ MCQuestion.options q /\ MCQOption.isCorrect o = true /\
                  MCQOption.text o = Contextual.correctAnswer g).
Proof.
  intros g. subst g.
  pose proof (find_or_empty_found (fun s => includes (toLowerCase s) "undefined")
                (paragraph_sentences (select_paragraph text paragraphNumber)) s Hin Hword)
    as Hfound.
  assert (Hne : Contextual.correctAnswer
                  (fst (generateContextualQuestion (Some ty) entities text paragraphNumber src))
                <> "").
  { rewrite generateContextualQuestion_undefined_answer by exact Hempty.
    apply trim_nonempty. rewrite <- has_nonspace_toLowerCase.
    apply includes_undefined_has_nonspace. exact Hfound. }
  split; [|split; [exact Hne|split; [|split]]].
  - exists (find_or_empty (fun s => includes (toLowerCase s) "undefined")
              (paragraph_sentences (select_paragraph text paragraphNumber))).
    split; [|split; [exact Hfound|]].
    + destruct (find_or_empty_cases (fun s => includes (toLowerCase s) "undefined")
                  (paragraph_sentences (select_paragraph text paragraphNumber)))
        as [Hblank|[Hmem _]]; [|exact Hmem].
      rewrite Hblank in Hfound. discriminate Hfound.
    + apply generateContextualQuestion_undefined_answer. exact Hempty.
  - apply generateContextualQuestion_undefined_question. exact Hempty.
  - apply truthy_true, generateContextualQuestion_question_truthy.
  - intros includeExplanations difficulty i questions Hty Hpar.
    destruct (generate_slot_pushes includeExplanations entities text difficulty i questions src)
      as (q & Hout & Hq & Ho).
    + rewrite Hty, Hpar. exact Hne.
    + rewrite Hty, Hpar in Hq, Ho. exists q. auto.
Qed.

Lemma undefined_is_taken_for_the_missing_term_witness :
  let text := "The variable x is Undefined here. Nothing else." in
  required_collection_empty QDefinition no_entities /\
  "The variable x is Undefined here" ∈ paragraph_sentences (select_paragraph text 1) /\
  includes (toLowerCase "The variable x is Undefined here") "undefined" = true /\
  Contextual.correctAnswer
    (fst (generateContextualQuestion (Some QDefinition) no_entities text 1 (fun _ => 0%N))) <> "".
Proof.
  intros text.
  assert (Hempty : required_collection_empty QDefinition no_entities) by reflexivity.
  assert (Hin : "The variable x is Undefined here" ∈ paragraph_sentences (select_paragraph text 1)).
  { vm_compute. apply list_elem_of_here. }
  split; [exact Hempty|]. split; [exact Hin|]. split; [reflexivity|].
  exact (proj1 (proj2 (undefined_is_taken_for_the_missing_term QDefinition no_entities text 1
                         (fun _ => 0%N) "The variable x is Undefined here" Hempty Hin eq_refl))).
Defined.

Lemma generate_loop_all_blank includeExplanations entities text difficulty n :
  (forall i src,
      Contextual.correctAnswer
        (fst (generateContextualQuestion (slot_type i) entities text (slot_paragraph i) src)) = "") ->
  forall i questions src,
    fst (generate_loop includeExplanations entities text difficulty n i questions src) = questions.
Proof.
  intros Hblank. induction n as [|n IH]; intros i questions src; [reflexivity|].
  cbn [generate_loop]. unfold bind.
  assert (Hslot : fst (generate_slot includeExplanations entities text difficulty i questions src)
                  = questions).
  { unfold generate_slot, bind. specialize (Hblank i src).
    destruct (generateContextualQuestion (slot_type i) entities text (slot_paragraph i) src)
      as [g src1].
    cbn [fst] in Hblank. rewrite Hblank. cbn [truthy negb]. rewrite orb_true_r. reflexivity. }
  destruct (generate_slot includeExplanations entities text difficulty i questions src)
    as [questions1 src1].
  cbn [fst] in Hslot. subst questions1. apply IH.
Qed.

(** A text from which no entity is extracted, and in which no sentence of
    any selected paragraph has a causal verb or the text [undefined],
    yields no question at all, for every count, difficulty and random
    source. *)
Theorem generateMockQuestions_nothing_without_cues (text : string)
    (Hentities : extractEntities text = no_entities)
    (Hplain : forall paragraphNumber s,
        s ∈ paragraph_sentences (select_paragraph text paragraphNumber) ->
        RegExp_test re_causal s = false /\ includes (toLowerCase s) "undefined" = false) :
  forall includeExplanations count difficulty src,
    fst (generateMockQuestions includeExplanations text count difficulty src) = [].
Proof.
  intros includeExplanations count difficulty src.
  unfold generateMockQuestions. rewrite Hentities.
  apply generate_loop_all_blank. intros i src0.
  destruct (slot_type_defined i) as [ty Hty]. rewrite Hty.
  assert (Hundef : find_or_empty (fun s => includes (toLowerCase s) "undefined")
                     (paragraph_sentences (select_paragraph text (slot_paragraph i))) = "").
  { apply find_or_empty_none. intros s Hs. apply (Hplain _ s Hs). }
  assert (Hcausal : find_or_empty (RegExp_test re_causal)
                      (paragraph_sentences (select_paragraph text (slot_paragraph i))) = "").
  { apply find_or_empty_none. intros s Hs. apply (Hplain _ s Hs). }
  destruct ty;
    try (rewrite generateContextualQuestion_undefined_answer by reflexivity;
         rewrite Hundef; reflexivity).
  change (trim (find_or_empty (RegExp_test re_causal)
                  (paragraph_sentences (select_paragraph text (slot_paragraph i)))) = "").
  rewrite Hcausal. reflexivity.
Qed.

Lemma generateMockQuestions_nothing_without_cues_witness :
  let text := "Hello world. This is plain text with no markers." in
  extractEntities text = no_entities /\
  fst (generateMockQuestions false text 20 hard (fun k => N.of_nat k)) = [].
Proof.
  intros text.
  assert (Hentities : extractEntities text = no_entities) by (vm_compute; reflexivity).
  assert (Hsingle : forall p, select_paragraph text p = text)
    by (apply select_paragraph_single; reflexivity).
  split; [exact Hentities|].
  apply (generateMockQuestions_nothing_without_cues text Hentities).
  intros p s Hs. rewrite Hsingle in Hs. vm_compute in Hs.
  repeat (apply elem_of_cons in Hs as [->|Hs]; [split; reflexivity|]).
  inversion Hs.
Defined.

(** ** The list returned by [generateMockQuestions] *)

Lemma generate_loop_add includeExplanations entities text difficulty n m :
  forall i questions src,
    generate_loop includeExplanations entities text difficulty (n + m) i questions src
    = let (questions1, src1) :=
        generate_loop includeExplanations entities text difficulty n i questions src in
      generate_loop includeExplanations entities text difficulty m (i + n) questions1 src1.
Proof.
  induction n as [|n IH]; intros i questions src.
  - simpl. rewrite Nat.add_0_r. reflexivity.
  - cbn [generate_loop Nat.add]. unfold bind.
    destruct (generate_slot includeExplanations entities text difficulty i questions src)
      as [questions1 src1].
    rewrite IH. replace (i + S n)%nat with (S i + n)%nat by lia. reflexivity.
Qed.

(** Asking for more questions from the same random source leaves the
    earlier ones as they are: the result for [count] is a prefix of the
    result for [count + more]. *)
Theorem generateMockQuestions_prefix_stable includeExplanations text count more difficulty src :
  fst (generateMockQuestions includeExplanations text count difficulty src)
  `prefix_of`
  fst (generateMockQuestions includeExplanations text (count + more) difficulty src).
Proof.
  unfold generateMockQuestions. rewrite generate_loop_add.
  destruct (generate_loop includeExplanations (extractEntities text) text difficulty count 0 [] src)
    as [questions1 src1].
  apply generate_loop_prefix.
Qed.

Lemma Nat_to_uint_nonnil (n : nat) : Nat.to_uint n <> Decimal.Nil.
Proof.
  intros Hnil.
  assert (Hn : n = 0%nat).
  { rewrite <- (DecimalNat.Unsigned.of_to n), Hnil. reflexivity. }
  subst n. discriminate Hnil.
Qed.

Lemma Number_toString_inj (n m : nat) : Number_toString n = Number_toString m -> n = m.
Proof.
  unfold Number_toString. intros Heq.
  apply DecimalNat.Unsigned.to_uint_inj.
  assert (Hsome : Some (Nat.to_uint n) = Some (Nat.to_uint m)).
  { rewrite <- (NilZero.usu (Nat.to_uint n)) by apply Nat_to_uint_nonnil.
    rewrite <- (NilZero.usu (Nat.to_uint m)) by apply Nat_to_uint_nonnil.
    rewrite Heq. reflexivity. }
  congruence.
Qed.

Lemma question_id_inj (i j : nat) : question_id i = question_id j -> i = j.
Proof.
  unfold question_id. intros Heq.
  change (String "q" (Number_toString (i + 1)) = String "q" (Number_toString (j + 1))) in Heq.
  injection Heq as Heq. apply Number_toString_inj in Heq. lia.
Qed.

Lemma generate_loop_ids includeExplanations entities text difficulty n :
  forall i questions src,
    map MCQuestion.id questions `sublist_of` map question_id (seq 0 i) ->
    map MCQuestion.id
      (fst (generate_loop includeExplanations entities text difficulty n i questions src))
    `sublist_of` map question_id (seq 0 (i + n)).
Proof.
  induction n as [|n IH]; intros i questions src Hsub.
  - rewrite Nat.add_0_r. exact Hsub.
  - cbn [generate_loop]. unfold bind.
    pose proof (generate_slot_cases includeExplanations entities text difficulty i questions src)
      as Hcase.
    destruct (generate_slot includeExplanations entities text difficulty i questions src)
      as [questions1 src1].
    cbn [fst] in Hcase.
    replace (i + S n)%nat with (S i + n)%nat by lia. apply IH.
    rewrite seq_S, map_app. simpl.
    destruct Hcase as [->|(q & Hq & ->)].
    + apply sublist_inserts_r. exact Hsub.
    + rewrite map_app. apply sublist_app; [exact Hsub|].
      apply produced_options in Hq as (g & _ & Hid & _). simpl. rewrite Hid. reflexivity.
Qed.

Lemma generateMockQuestions_sorted_ids includeExplanations text count difficulty src :
  let ids := map MCQuestion.id (fst (generateMockQuestions includeExplanations text count difficulty src)) in
  ids `sublist_of` map question_id (seq 0 count) /\ NoDup ids.
Proof.
  intros ids.
  assert (Hsub : ids `sublist_of` map question_id (seq 0 count)).
  { subst ids. unfold generateMockQuestions.
    apply (generate_loop_ids includeExplanations (extractEntities text) text difficulty count 0 [] src).
    apply sublist_nil_l. }
  split; [exact Hsub|].
  eapply sublist_NoDup; [|exact Hsub].
  apply NoDup_fmap_2; [|apply NoDup_seq].
  intros i j. apply question_id_inj.
Qed.

(** The identifiers of the returned questions are taken from
    [q1, q2, ..., q{count}] in increasing order, each at most once: no two
    returned questions share an identifier. *)
Theorem generateMockQuestions_ids includeExplanations text count difficulty src :
  let ids := map MCQuestion.id (fst (generateMockQuestions includeExplanations text count difficulty src)) in
  ids `sublist_of` map question_id (seq 0 count) /\ NoDup ids.
Proof. apply generateMockQuestions_sorted_ids. Qed.

Lemma last_two_option_a (q : string) : last_two (q +:+ "_a") = "a_".
Proof. unfold last_two, String.rev. rewrite rev_app_app. reflexivity. Qed.

Lemma last_two_option_b (q : string) : last_two (q +:+ "_b") = "b_".
Proof. unfold last_two, String.rev. rewrite rev_app_app. reflexivity. Qed.

Lemma last_two_option_c (q : string) : last_two (q +:+ "_c") = "c_".
Proof. unfold last_two, String.rev. rewrite rev_app_app. reflexivity. Qed.

Lemma last_two_option_d (q : string) : last_two (q +:+ "_d") = "d_".
Proof. unfold last_two, String.rev. rewrite rev_app_app. reflexivity. Qed.

Lemma slot_options_ids i correctAnswer distractors :
  length distractors = 3%nat ->
  map MCQOption.id (slot_options i correctAnswer distractors) = option_ids i /\
  NoDup (option_ids i) /\
  map MCQOption.text (slot_options i correctAnswer distractors) = correctAnswer :: distractors.
Proof.
  intros Hlen.
  destruct distractors as [|d0 [|d1 [|d2 [|d3 rest]]]]; simpl in Hlen; try lia.
  split; [reflexivity|]. split; [|reflexivity].
  apply (NoDup_fmap_1 last_two). unfold option_ids.
  cbn [fmap list_fmap].
  rewrite last_two_option_a.
  rewrite (last_two_option_b (question_id i)), (last_two_option_c (question_id i)),
    (last_two_option_d (question_id i)).
  refine (bool_decide_unpack _ _). vm_compute. exact I.
Qed.

(** Every returned question has a non-blank question text, no selected
    option, and the cognitive level of its type; its four options carry
    the identifiers [_a], [_b], [_c], [_d] of its own number, once each in
    some order; the correct option is the one whose identifier ends in
    [_a], and its text is not blank. *)
Theorem generateMockQuestions_wellformed includeExplanations text count difficulty src :
  Forall (fun q =>
            MCQuestion.question q <> "" /\
            MCQuestion.selectedOption q = None /\
            MCQuestion.cognitiveLevel q = questionPatterns.level (MCQuestion.type q) /\
            exists i,
              MCQuestion.id q = question_id i /\
              map MCQOption.id (MCQuestion.options q) ≡ₚ option_ids i /\
              NoDup (map MCQOption.id (MCQuestion.options q)) /\
              forall o, o ∈ MCQuestion.options q ->
                        (MCQOption.isCorrect o = true <-> MCQOption.id o = question_id i +:+ "_a") /\
                        (MCQOption.isCorrect o = true -> MCQOption.text o <> ""))
    (fst (generateMockQuestions includeExplanations text count difficulty src)).
Proof.
  eapply Forall_impl; [apply generateMockQuestions_slots|].
  intros q (i & _ & Hp). cbn beta.
  destruct Hp as (ty & g & src0 & src1 & Hty & Hg & Hq & Ha & ->).
  set (distractors := generatePlausibleDistractors (Contextual.correctAnswer g)
                        (extractEntities text) difficulty).
  pose proof (generatePlausibleDistractors_length (Contextual.correctAnswer g)
                (extractEntities text) difficulty) as Hlen.
  fold distractors in Hlen.
  pose proof (shuffleArray_Permutation (slot_options i (Contextual.correctAnswer g) distractors) src1)
    as HP.
  destruct (slot_options_ids i (Contextual.correctAnswer g) distractors Hlen) as (Hids & Hnd & _).
  cbn [slot_question MCQuestion.question MCQuestion.selectedOption MCQuestion.cognitiveLevel
         MCQuestion.type MCQuestion.id MCQuestion.options].
  split; [apply truthy_true; exact Hq|]. split; [reflexivity|]. split; [reflexivity|].
  exists i. split; [reflexivity|].
  assert (Hpids : map MCQOption.id
                    (fst (shuffleArray (slot_options i (Contextual.correctAnswer g) distractors) src1))
                  ≡ₚ option_ids i).
  { rewrite <- Hids. apply fmap_Permutation. exact HP. }
  split; [exact Hpids|]. split; [rewrite Hpids; exact Hnd|].
  intros o Ho. rewrite HP in Ho.
  destruct distractors as [|d0 [|d1 [|d2 [|d3 rest]]]]; simpl in Hlen; try lia.
  pose proof Hnd as Hnd'. unfold option_ids in Hnd'.
  apply NoDup_cons in Hnd' as [Hnotin _].
  unfold slot_options in Ho. cbn [imap] in Ho.
  apply elem_of_cons in Ho as [->|Ho].
  - cbn [MCQOption.isCorrect MCQOption.id MCQOption.text]. split.
    + split; reflexivity.
    + intros _. apply truthy_true. exact Ha.
  - assert (Hwrong : MCQOption.isCorrect o = false /\
                     MCQOption.id o ∈ [question_id i +:+ "_b"; question_id i +:+ "_c";
                                       question_id i +:+ "_d"]).
    { repeat (apply elem_of_cons in Ho as [->|Ho];
              [split; [reflexivity|]; cbn [MCQOption.id];
               first [apply list_elem_of_here
                     |apply list_elem_of_further, list_elem_of_here
                     |apply list_elem_of_further, list_elem_of_further, list_elem_of_here]|]).
      inversion Ho. }
    destruct Hwrong as [Hfalse Hid]. rewrite Hfalse. split.
    + split; [discriminate|]. intros Heq. rewrite Heq in Hid. contradiction.
    + discriminate.
Qed.

(** ** Selecting an option and what is shown then *)

Lemma filter_none {A : Type} (P : A -> Prop) `{forall x, Decision (P x)} (l : list A) :
  (forall y, y ∈ l -> ~ P y) -> filter P l = [].
Proof.
  induction l as [|x l IH]; intros Hnone; [reflexivity|].
  rewrite filter_cons_False by (apply Hnone, list_elem_of_here).
  apply IH. intros y Hy. apply Hnone, list_elem_of_further, Hy.
Qed.

Lemma filter_unique {A B : Type} `{EqDecision B} (f : A -> B) (l : list A) (o : A) :
  NoDup (f <$> l) -> o ∈ l -> filter (fun x => f x = f o) l = [o].
Proof.
  induction l as [|x l IH]; intros Hnd Hin; [inversion Hin|].
  rewrite fmap_cons in Hnd. apply NoDup_cons in Hnd as [Hx Hnd].
  assert (Hnone : forall y, f y = f x -> y ∈ l -> False).
  { intros y Hy Hyl. apply Hx. rewrite <- Hy. apply list_elem_of_fmap. eauto. }
  apply elem_of_cons in Hin as [->|Hin].
  - rewrite filter_cons_True by reflexivity. f_equal.
    apply filter_none. intros y Hyl Hy. exact (Hnone y Hy Hyl).
  - rewrite filter_cons_False; [apply IH; assumption|].
    intros Hxo. exact (Hnone o (eq_sym Hxo) Hin).
Qed.

Lemma NoDup_fmap_elem_inj {A B : Type} (f : A -> B) (l : list A) (x y : A) :
  NoDup (f <$> l) -> x ∈ l -> y ∈ l -> f x = f y -> x = y.
Proof.
  induction l as [|z l IH]; intros Hnd Hx Hy Hxy; [inversion Hx|].
  rewrite fmap_cons in Hnd. apply NoDup_cons in Hnd as [Hz Hnd].
  apply elem_of_cons in Hx as [->|Hx]; apply elem_of_cons in Hy as [->|Hy].
  - reflexivity.
  - contradiction Hz. rewrite Hxy. apply list_elem_of_fmap. eauto.
  - contradiction Hz. rewrite <- Hxy. apply list_elem_of_fmap. eauto.
  - apply IH; assumption.
Qed.

Lemma option_icon_selected (q : MCQuestion.t) (optionId : string) (x : MCQOption.t) :
  truthy optionId = true ->
  let q1 := with_selectedOption q optionId in
  (option_icon q1 x = Some CheckGreen <-> MCQOption.isCorrect x = true) /\
  (option_icon q1 x = Some XRed <->
   MCQOption.isCorrect x = false /\ MCQOption.id x = optionId).
Proof.
  intros Hid q1. unfold option_icon, is_selected. subst q1.
  cbn [with_selectedOption MCQuestion.selectedOption truthy_opt]. rewrite Hid.
  destruct (String.eqb (MCQOption.id x) optionId) eqn:Heq.
  - apply String.eqb_eq in Heq. destruct (MCQOption.isCorrect x); split; split;
      solve [ discriminate | reflexivity | tauto | intros [H _]; discriminate H
            | intros _; auto ].
  - apply String.eqb_neq in Heq. destruct (MCQOption.isCorrect x); split; split;
      solve [ discriminate | reflexivity | tauto | intros [H _]; discriminate H
            | intros [_ H]; contradiction ].
Qed.

Lemma select_option_replaces (questions : list MCQuestion.t) (q : MCQuestion.t)
    (optionId : string) (k : nat) :
  NoDup (map MCQuestion.id questions) ->
  questions !! k = Some q ->
  select_option (MCQuestion.id q) optionId questions
  = <[k := with_selectedOption q optionId]> questions.
Proof.
  intros Hnd Hk. apply list_eq. intros j. unfold select_option.
  change (map ?f questions) with (f <$> questions). rewrite list_lookup_fmap.
  destruct (decide (j = k)) as [->|Hne].
  - rewrite list_lookup_insert_eq by (eapply lookup_lt_Some; exact Hk).
    rewrite Hk. cbn. rewrite String.eqb_refl. reflexivity.
  - rewrite list_lookup_insert_ne by (intros Heq; apply Hne; symmetry; exact Heq).
    destruct (questions !! j) as [r|] eqn:Hj; [|reflexivity].
    cbn. destruct (String.eqb (MCQuestion.id r) (MCQuestion.id q)) eqn:Heq; [|reflexivity].
    apply String.eqb_eq in Heq. exfalso. apply Hne.
    apply (NoDup_lookup (map MCQuestion.id questions) j k (MCQuestion.id q) Hnd).
    + change (map MCQuestion.id questions) with (MCQuestion.id <$> questions).
      rewrite list_lookup_fmap, Hj. cbn. rewrite Heq. reflexivity.
    + change (map MCQuestion.id questions) with (MCQuestion.id <$> questions).
      rewrite list_lookup_fmap, Hk. reflexivity.
Qed.

(** After [handleOptionSelect] on a generated list, for a question of the
    list and one of its options: the new list is the old one with that
    question, at its position, replaced by the same question with
    [selectedOption] set (every other question is kept as it is, in
    place); exactly one of its options is then shown with
    the green check, a red cross is shown exactly when the chosen option is
    wrong (on that option), and the explanation box is shown exactly when
    explanations were requested at generation. *)
Theorem feedback_after_selection
    (st : App.t) includeExplanations text count difficulty src
    (q : MCQuestion.t) (o : MCQOption.t)
    (Hgen : App.generatedQuestions st
            = fst (generateMockQuestions includeExplanations text count difficulty src))
    (Hq : q ∈ App.generatedQuestions st)
    (Ho : o ∈ MCQuestion.options q) :
  let st1 := handleOptionSelect (MCQuestion.id q) (MCQOption.id o) st in
  let q1 := with_selectedOption q (MCQOption.id o) in
  (exists k, App.generatedQuestions st !! k = Some q /\
             App.generatedQuestions st1 = <[k := q1]> (App.generatedQuestions st)) /\
  (forall j r, App.generatedQuestions st !! j = Some r -> r <> q ->
               App.generatedQuestions st1 !! j = Some r) /\
  q1 ∈ App.generatedQuestions st1 /\
  length (App.generatedQuestions st1) = length (App.generatedQuestions st) /\
  (forall r, r ∈ App.generatedQuestions st1 ->
             r = q1 \/ (r ∈ App.generatedQuestions st /\ MCQuestion.id r <> MCQuestion.id q)) /\
  count_icon CheckGreen q1 = 1%nat /\
  count_icon XRed q1 = (if MCQOption.isCorrect o then 0 else 1)%nat /\
  option_icon q1 o = Some (if MCQOption.isCorrect o then CheckGreen else XRed) /\
  explanation_shown q1 = includeExplanations.
Proof.
  intros st1 q1.
  pose proof (generateMockQuestions_sorted_ids includeExplanations text count difficulty src)
    as [_ Hnd]. cbn zeta in Hnd. rewrite <- Hgen in Hnd.
  pose proof (generateMockQuestions_slots includeExplanations text count difficulty src) as Hslots.
  rewrite <- Hgen in Hslots.
  destruct (proj1 (Forall_forall _ _) Hslots q Hq) as (i & _ & Hp).
  pose proof Hp as Hp'.
  apply produced_options in Hp' as (g & HP & Hid & _ & _ & Hexp).
  set (distractors := generatePlausibleDistractors (Contextual.correctAnswer g)
                        (extractEntities text) difficulty) in *.
  pose proof (generatePlausibleDistractors_length (Contextual.correctAnswer g)
                (extractEntities text) difficulty) as Hlen.
  fold distractors in Hlen.
  destruct (slot_options_ids i (Contextual.correctAnswer g) distractors Hlen) as (Hids & Hndo & _).
  destruct (slot_options_shape i (Contextual.correctAnswer g) distractors Hlen) as (_ & Hcorrect).
  assert (Hpids : map MCQOption.id (MCQuestion.options q) ≡ₚ option_ids i).
  { rewrite <- Hids. apply fmap_Permutation. exact HP. }
  assert (Hndq : NoDup (map MCQOption.id (MCQuestion.options q))) by (rewrite Hpids; exact Hndo).
  assert (Htruthy : truthy (MCQOption.id o) = true).
  { assert (Hin : MCQOption.id o ∈ option_ids i).
    { rewrite <- Hpids. apply list_elem_of_fmap. eauto. }
    unfold option_ids in Hin.
    repeat (apply elem_of_cons in Hin as [->|Hin]; [reflexivity|]). inversion Hin. }
  subst st1. unfold handleOptionSelect.
  cbn [App.setGeneratedQuestions App.generatedQuestions].
  destruct (list_elem_of_lookup_1 _ _ Hq) as [k Hk].
  pose proof (select_option_replaces (App.generatedQuestions st) q (MCQOption.id o) k Hnd Hk)
    as Hrep.
  split; [exists k; split; [exact Hk|exact Hrep]|].
  split.
  { intros j r Hj Hrq. rewrite Hrep. rewrite list_lookup_insert_ne; [exact Hj|].
    intros ->. rewrite Hk in Hj. injection Hj as <-. apply Hrq. reflexivity. }
  unfold select_option.
  split; [|split; [|split]].
  - apply list_elem_of_fmap. exists q. split; [|exact Hq].
    rewrite String.eqb_refl. reflexivity.
  - apply length_fmap.
  - intros r Hr. apply list_elem_of_fmap in Hr as (r0 & -> & Hr0).
    destruct (String.eqb (MCQuestion.id r0) (MCQuestion.id q)) eqn:Heq.
    + left. apply String.eqb_eq in Heq.
      rewrite (NoDup_fmap_elem_inj MCQuestion.id _ r0 q Hnd Hr0 Hq Heq). reflexivity.
    + right. apply String.eqb_neq in Heq. split; assumption.
  - assert (Hicons : forall x,
              (option_icon q1 x = Some CheckGreen <-> MCQOption.isCorrect x = true) /\
              (option_icon q1 x = Some XRed <->
               MCQOption.isCorrect x = false /\ MCQOption.id x = MCQOption.id o)).
    { intros x. apply option_icon_selected. exact Htruthy. }
    split; [|split; [|split]].
    + unfold count_icon. subst q1. cbn [with_selectedOption MCQuestion.options].
      rewrite (list_filter_iff _ (fun x => MCQOption.isCorrect x = true))
        by (intros x; apply (Hicons x)).
      change (length (correct_options (MCQuestion.options q)) = 1%nat).
      unfold correct_options. rewrite HP.
      fold (correct_options (slot_options i (Contextual.correctAnswer g) distractors)).
      rewrite Hcorrect. reflexivity.
    + unfold count_icon. subst q1. cbn [with_selectedOption MCQuestion.options].
      rewrite (list_filter_iff _ (fun x => MCQOption.isCorrect x = false /\
                                           MCQOption.id x = MCQOption.id o))
        by (intros x; apply (Hicons x)).
      rewrite <- (list_filter_filter (fun x => MCQOption.isCorrect x = false)
                    (fun x => MCQOption.id x = MCQOption.id o)).
      rewrite (filter_unique MCQOption.id _ o Hndq Ho).
      destruct (MCQOption.isCorrect o) eqn:Hc.
      * rewrite filter_cons_False by (rewrite Hc; discriminate). reflexivity.
      * rewrite filter_cons_True by exact Hc. reflexivity.
    + destruct (MCQOption.isCorrect o) eqn:Hc.
      * apply (Hicons o). exact Hc.
      * apply (Hicons o). split; [exact Hc|reflexivity].
    + unfold explanation_shown. subst q1.
      cbn [with_selectedOption MCQuestion.selectedOption MCQuestion.explanation truthy_opt].
      rewrite Htruthy, Hexp. destruct includeExplanations; reflexivity.
Qed.

Lemma feedback_after_selection_witness :
  let src : RandomSource := fun k => (N.of_nat k * 7919 * 104729 * 1299709 + 4000000000000000)%N in
  let text := "The concept of energy is old. Heat causes expansion in metals." in
  let questions := fst (generateMockQuestions true text 3 easy src) in
  let st := {| App.inputText := text; App.fileError := None; App.isLoading := false;
               App.generatedQuestions := questions;
               App.settings := {| GenerationSettings.questionCount := 3;
                                  GenerationSettings.difficulty := easy;
                                  GenerationSettings.includeExplanations := true;
                                  GenerationSettings.cognitiveDistribution := true |};
               App.alerts := [] |} in
  exists q o,
    q ∈ App.generatedQuestions st /\ o ∈ MCQuestion.options q /\
    MCQOption.isCorrect o = false /\
    count_icon CheckGreen (with_selectedOption q (MCQOption.id o)) = 1%nat /\
    count_icon XRed (with_selectedOption q (MCQOption.id o)) = 1%nat.
Proof.
  intros src text questions st.
  assert (Hqs : exists q rest, questions = q :: rest /\
                  exists o, o ∈ MCQuestion.options q /\ MCQOption.isCorrect o = false).
  { vm_compute. eexists. eexists. split; [reflexivity|].
    eexists. split; [apply list_elem_of_further, list_elem_of_here|reflexivity]. }
  destruct Hqs as (q & rest & Hqs & o & Ho & Hwrong).
  exists q, o.
  assert (Hgen : App.generatedQuestions st = fst (generateMockQuestions true text 3 easy src))
    by reflexivity.
  assert (Hq : q ∈ App.generatedQuestions st).
  { rewrite Hgen. fold questions. rewrite Hqs. apply list_elem_of_here. }
  destruct (feedback_after_selection st true text 3 easy src q o Hgen Hq Ho)
    as (_ & _ & _ & _ & _ & Hcheck & Hx & _).
  rewrite Hwrong in Hx. auto.
Defined.

(** ** The handlers *)

Lemma truthy_trim (s : string) : truthy (trim s) = has_nonspace s.
Proof.
  rewrite <- has_nonspace_trim.
  destruct (trim_ends_ok s) as [Hh _].
  destruct (trim s) as [|c u]; [reflexivity|].
  simpl in *. rewrite Hh. reflexivity.
Qed.

(** [handleGenerate] on a text of white space only (or empty) raises the
    alert and changes nothing else, the previous questions included.  On
    any other text it replaces the questions by the result of
    [generateMockQuestions] for the current settings, ends with
    [isLoading = false] and raises no alert; no new question has a
    selected option, so none shows an icon or its explanation. *)
Theorem handleGenerate_guard (st : App.t) (src : RandomSource) :
  let st1 := fst (handleGenerate st src) in
  (has_nonspace (App.inputText st) = false ->
   st1 = App.alert "Please enter some text or upload a file" st) /\
  (has_nonspace (App.inputText st) = true ->
   App.generatedQuestions st1
   = fst (generateMockQuestions
            (GenerationSettings.includeExplanations (App.settings st))
            (App.inputText st)
            (GenerationSettings.questionCount (App.settings st))
            (GenerationSettings.difficulty (App.settings st)) src) /\
   App.isLoading st1 = false /\
   App.alerts st1 = App.alerts st /\
   App.inputText st1 = App.inputText st /\
   App.fileError st1 = App.fileError st /\
   App.settings st1 = App.settings st /\
   Forall (fun q => MCQuestion.selectedOption q = None /\
                    explanation_shown q = false /\
                    forall o, option_icon q o = None)
     (App.generatedQuestions st1)).
Proof.
  intros st1. subst st1. unfold handleGenerate. rewrite truthy_trim.
  split; intros Hsp; rewrite Hsp; cbn [negb]; [reflexivity|].
  unfold bind, ret.
  cbn [App.setIsLoading App.settings App.inputText].
  pose proof (generateMockQuestions_slots
                (GenerationSettings.includeExplanations (App.settings st))
                (App.inputText st)
                (GenerationSettings.questionCount (App.settings st))
                (GenerationSettings.difficulty (App.settings st)) src) as Hslots.
  destruct (generateMockQuestions _ _ _ _ src) as [questions src1].
  cbn [fst] in *. repeat split.
  eapply Forall_impl; [exact Hslots|].
  intros q (i & _ & (ty & g & s0 & s1 & _ & _ & _ & _ & ->)).
  split; [reflexivity|]. split; reflexivity.
Qed.

Lemma Array_includes_elem (array : list string) (x : string) :
  Array_includes array x = true <-> x ∈ array.
Proof.
  unfold Array_includes. rewrite existsb_exists. split.
  - intros (y & Hy & Heq). apply String.eqb_eq in Heq. subst y.
    apply list_elem_of_In. exact Hy.
  - intros Hin. exists x. split; [apply list_elem_of_In; exact Hin|apply String.eqb_refl].
Qed.

(** [handleFileUpload] never touches the questions.  Without a file it only
    clears the error.  With a file, the error is cleared exactly when the
    file has at most 10485760 bytes, one of the three allowed MIME types,
    and its text can be read; then [inputText] becomes that text, and in
    every other case [inputText] is left as it was.  The size is tested
    first: a file that is too large reports the size message whatever its
    type. *)
Theorem handleFileUpload_accepts (file : option File.t) (st : App.t) :
  let st1 := handleFileUpload file st in
  App.generatedQuestions st1 = App.generatedQuestions st /\
  (file = None -> App.fileError st1 = None /\ App.inputText st1 = App.inputText st) /\
  (forall f, file = Some f ->
     (App.fileError st1 = None <->
      (File.size f <= 10485760)%N /\ File.type f ∈ allowedTypes /\ is_Some (File.text f)) /\
     (App.fileError st1 = None -> File.text f = Some (App.inputText st1)) /\
     (App.fileError st1 <> None -> App.inputText st1 = App.inputText st) /\
     ((10485760 < File.size f)%N ->
      App.fileError st1 = Some "File size must be less than 10MB")).
Proof.
  intros st1. subst st1. unfold handleFileUpload.
  destruct file as [f|]; [|repeat split; intros; discriminate].
  split; [|split; [discriminate|]].
  - destruct (10 * 1024 * 1024 <? File.size f)%N; [reflexivity|].
    destruct (Array_includes allowedTypes (File.type f)); [|reflexivity].
    destruct (File.text f); reflexivity.
  - intros f0 [= <-].
    change (10 * 1024 * 1024)%N with 10485760%N.
    destruct (10485760 <? File.size f)%N eqn:Hsize.
    + apply N.ltb_lt in Hsize. cbn.
      repeat split; try discriminate; try reflexivity. intros (Hle & _). lia.
    + apply N.ltb_ge in Hsize.
      destruct (Array_includes allowedTypes (File.type f)) eqn:Htype; cbn [negb].
      * apply Array_includes_elem in Htype.
        destruct (File.text f) as [t|] eqn:Htext; cbn.
        -- repeat split; try assumption; try reflexivity; try (intros; lia); eauto.
           intros H. contradiction H. reflexivity.
        -- repeat split; try discriminate; try reflexivity; try (intros; lia).
           intros (_ & _ & [t Ht]). discriminate Ht.
      * assert (Hnot : ~ File.type f ∈ allowedTypes).
        { intros Hin. apply Array_includes_elem in Hin. congruence. }
        cbn. repeat split; try discriminate; try reflexivity; try (intros; lia).
        intros (_ & Hin & _). contradiction.
Qed.

(** The border colour and the icon of an option agree: green border with
    the green check, red border with the red cross, and a gray border with
    no icon, whatever the question and the option are. *)
Theorem option_style_agrees_with_icon (q : MCQuestion.t) (o : MCQOption.t) :
  (option_style q o = BorderGreen <-> option_icon q o = Some CheckGreen) /\
  (option_style q o = BorderRed <-> option_icon q o = Some XRed) /\
  (option_style q o = BorderGrayDimmed \/ option_style q o = BorderGrayHover <->
   option_icon q o = None).
Proof.
  unfold option_style, option_icon.
  destruct (truthy_opt (MCQuestion.selectedOption q)), (is_selected q o),
    (MCQOption.isCorrect o);
    repeat split; intros; try discriminate; try reflexivity; auto;
    match goal with H : _ \/ _ |- _ => destruct H; discriminate end.
Qed.
